(** * altshift_tools_str: the transform dispatcher and the error reporter

    A shallow embedding of the two TypeScript modules of the repository:

    - the [tools-app] element, whose [_inputChange] handler maps the selected
      function name and the text of the input area to [_outputValue] and
      [_inputError];
    - the two global listeners ([error] and [unhandledrejection]) that post a
      JSON report of the failure value.

    JavaScript strings are sequences of UTF-16 code units, so a string is a
    list of code units here.  The platform primitives the code calls
    ([split], [join], [slice], [match], [Math.min], [btoa], [atob],
    [JSON.stringify], [JSON.parse], [instanceof]) are modelled after
    ECMA-262, the WHATWG HTML standard (forgiving-base64) and Web IDL.
    Of the engine's resource limits, the number of arguments of a call is
    modelled (the [deindent] case spreads one argument per indented line);
    the depth of the call stack and the maximal length of a string are
    not. *)

From Stdlib Require Import String Ascii List NArith ZArith Lia ZifyNat Bool.
Import ListNotations.

Set Implicit Arguments.
Set Warnings "-register-all".

(** ** Strings as code-unit sequences *)

Definition codeunit := N.
Definition jsstring := list codeunit.

Fixpoint str (s : string) : jsstring :=
  match s with
  | EmptyString => []
  | String a r => N_of_ascii a :: str r
  end.

Definition LF : codeunit := 10%N.
Definition QUOTE : codeunit := 34%N.
Definition BACKSLASH : codeunit := 92%N.

Definition jsstring_eqb (a b : jsstring) : bool :=
  if list_eq_dec N.eq_dec a b then true else false.

(** ** Completions: a call returns normally or throws *)

Inductive exn :=
| TypeError
| SyntaxError
| RangeError
| InvalidCharacterError
| Error (message : jsstring).

Inductive completion (A : Type) :=
| Normal (a : A)
| Throw (e : exn).
Arguments Normal {A} a.
Arguments Throw {A} e.

Definition bind {A B} (c : completion A) (k : A -> completion B) : completion B :=
  match c with
  | Normal a => k a
  | Throw e => Throw e
  end.

Notation "x <- c ;; k" := (bind c (fun x => k))
  (at level 61, c at next level, right associativity).

(** ** Numbers that [Math.min] and [slice] see: integers and [Infinity] *)

Inductive num :=
| Int (z : Z)
| Infinity.

Definition num_ltb (a b : num) : bool :=
  match a, b with
  | Int x, Int y => (x <? y)%Z
  | Int _, Infinity => true
  | Infinity, _ => false
  end.

(** [Math.min] on the arguments [values]: starts from [Infinity] and keeps
    the lowest.  This is the value of the call once it is made; whether a
    spread call with that many arguments can be made is [spread_arguments]
    below. *)
Definition Math_min (values : list num) : num :=
  fold_left (fun lowest number => if num_ltb number lowest then number else lowest)
            values Infinity.

(** ** String.prototype primitives *)

(** [s.split(sep)] for a separator of one code unit. *)
Fixpoint split (sep : codeunit) (s : jsstring) : list jsstring :=
  match s with
  | [] => [[]]
  | c :: r =>
      if (c =? sep)%N then [] :: split sep r
      else match split sep r with
           | l :: ls => (c :: l) :: ls
           | [] => [[c]]
           end
  end.

(** [a.join(sep)] on an array of strings. *)
Fixpoint join (sep : jsstring) (a : list jsstring) : jsstring :=
  match a with
  | [] => []
  | x :: r =>
      match r with
      | [] => x
      | _ :: _ => x ++ sep ++ join sep r
      end
  end.

(** [s.slice(start, end)]; [None] is an omitted [end]. *)
Definition String_slice (s : jsstring) (start : num) (end_ : option num) : jsstring :=
  let len := Z.of_nat (length s) in
  let clamp r :=
    match r with
    | Infinity => len
    | Int z => if (z <? 0)%Z then Z.max (len + z) 0 else Z.min z len
    end in
  let from := clamp start in
  let to := match end_ with None => len | Some e => clamp e end in
  if (from <? to)%Z then firstn (Z.to_nat (to - from)) (skipn (Z.to_nat from) s)
  else [].

(** The regular-expression class [\s]: WhiteSpace and LineTerminator. *)
Definition isWhiteSpace (c : codeunit) : bool :=
  ((9 <=? c) && (c <=? 13) || (c =? 32) || (c =? 160) || (c =? 5760)
   || (8192 <=? c) && (c <=? 8202) || (c =? 8232) || (c =? 8233)
   || (c =? 8239) || (c =? 8287) || (c =? 12288) || (c =? 65279))%N.

Fixpoint leading_whitespace (line : jsstring) : jsstring :=
  match line with
  | c :: r => if isWhiteSpace c then c :: leading_whitespace r else []
  | [] => []
  end.

(** [line.match(/^\s+/)]: the match's element 0, or [None] for [null]. *)
Definition String_match_leading_ws (line : jsstring) : option jsstring :=
  match leading_whitespace line with
  | [] => None
  | m => Some m
  end.

(** [.filter(match => match !== null)] *)
Fixpoint filter_not_null {A} (l : list (option A)) : list A :=
  match l with
  | [] => []
  | Some a :: r => a :: filter_not_null r
  | None :: r => filter_not_null r
  end.

(** ** The [deindent] case of [_inputChange] *)

Definition deindent (functionInput : jsstring) : jsstring :=
  let lines := split LF functionInput in
  let num_characters_to_remove :=
    Math_min (map (fun m => Int (Z.of_nat (length m)))
                  (filter_not_null (map String_match_leading_ws lines))) in
  let num_characters_to_remove :=
    match num_characters_to_remove with
    | Infinity => Int 0
    | n => n
    end in
  join [LF] (map (fun line => String_slice line num_characters_to_remove None) lines).

(** ** Base64: [btoa] and [atob] (WHATWG forgiving-base64, RFC 4648) *)

Definition PAD : codeunit := 61%N.

(** The character of a 6-bit value in the base64 alphabet. *)
Definition b64_char (i : N) : codeunit :=
  (if i <? 26 then 65 + i
   else if i <? 52 then 97 + (i - 26)
   else if i <? 62 then 48 + (i - 52)
   else if i =? 62 then 43
   else 47)%N.

(** The 6-bit value of an alphabet character; [None] outside the alphabet. *)
Definition b64_index (c : codeunit) : option N :=
  (if (65 <=? c) && (c <=? 90) then Some (c - 65)
   else if (97 <=? c) && (c <=? 122) then Some (c - 97 + 26)
   else if (48 <=? c) && (c <=? 57) then Some (c - 48 + 52)
   else if c =? 43 then Some 62
   else if c =? 47 then Some 63
   else None)%N.

(** The 6-bit groups of a byte sequence: three bytes give four groups; a
    final group of one or two bytes gives two or three, the last one filled
    with zero bits. *)
Fixpoint sextets (bytes : list N) : list N :=
  match bytes with
  | [] => []
  | [a] => [a / 4; a mod 4 * 16]
  | [a; b] => [a / 4; a mod 4 * 16 + b / 16; b mod 16 * 4]
  | a :: b :: c :: rest =>
      a / 4 :: a mod 4 * 16 + b / 16 :: b mod 16 * 4 + c / 64 :: c mod 64
        :: sextets rest
  end%N.

(** The [=] characters that complete the last quantum. *)
Definition padding (bytes : list N) : jsstring :=
  match (length bytes mod 3)%nat with
  | 1%nat => [PAD; PAD]
  | 2%nat => [PAD]
  | _ => []
  end.

Definition forgiving_base64_encode (bytes : list N) : jsstring :=
  map b64_char (sextets bytes) ++ padding bytes.

(** A code unit that is one byte. *)
Definition is_byte (c : codeunit) : Prop := (c <= 255)%N.

(** [btoa(data)]: throws when a code unit exceeds U+00FF. *)
Definition btoa (data : jsstring) : completion jsstring :=
  if existsb (fun c => (255 <? c)%N) data then Throw InvalidCharacterError
  else Normal (forgiving_base64_encode data).

Definition isASCIIWhitespace (c : codeunit) : bool :=
  ((c =? 9) || (c =? 10) || (c =? 12) || (c =? 13) || (c =? 32))%N.

(** Step 2 of forgiving-base64 decode: when the length is a multiple of four,
    one or two trailing [=] are removed. *)
Definition remove_padding (data : jsstring) : jsstring :=
  if (length data mod 4 =? 0)%nat then
    match rev data with
    | p :: q :: r =>
        if (p =? PAD)%N then
          if (q =? PAD)%N then rev r else rev (q :: r)
        else data
    | [p] => if (p =? PAD)%N then [] else data
    | [] => data
    end
  else data.

(** Step 4: every code unit has to be in the alphabet. *)
Fixpoint b64_indices (data : jsstring) : option (list N) :=
  match data with
  | [] => Some []
  | c :: r =>
      match b64_index c, b64_indices r with
      | Some i, Some l => Some (i :: l)
      | _, _ => None
      end
  end.

(** Steps 5 to 7: the bit buffer, its size in bits, and the output. *)
Record b64_state := { buffer : N; bits : N; output : list N }.

Definition b64_step (st : b64_state) (i : N) : b64_state :=
  let buf := (buffer st * 64 + i)%N in
  if (bits st + 6 =? 24)%N then
    {| buffer := 0; bits := 0;
       output := output st ++ [buf / 65536; buf / 256 mod 256; buf mod 256]%N |}
  else {| buffer := buf; bits := (bits st + 6)%N; output := output st |}.

Definition b64_flush (st : b64_state) : list N :=
  (if bits st =? 12 then output st ++ [buffer st / 16]
   else if bits st =? 18 then
     output st ++ [buffer st / 4 / 256; buffer st / 4 mod 256]
   else output st)%N.

Definition b64_start (out : list N) : b64_state :=
  {| buffer := 0; bits := 0; output := out |}.

Definition forgiving_base64_decode (data : jsstring) : option (list N) :=
  let data := filter (fun c => negb (isASCIIWhitespace c)) data in
  let data := remove_padding data in
  if (length data mod 4 =? 1)%nat then None
  else
    match b64_indices data with
    | None => None
    | Some idx => Some (b64_flush (fold_left b64_step idx (b64_start [])))
    end.

(** [atob(data)]: the decoded bytes, one code unit each. *)
Definition atob (data : jsstring) : completion jsstring :=
  match forgiving_base64_decode data with
  | Some bytes => Normal bytes
  | None => Throw InvalidCharacterError
  end.

(** ** Digits *)

Definition hexdigit (d : N) : codeunit :=
  (if d <? 10 then 48 + d else 87 + d)%N.

Definition hexvalue (c : codeunit) : option N :=
  (if (48 <=? c) && (c <=? 57) then Some (c - 48)
   else if (97 <=? c) && (c <=? 102) then Some (c - 87)
   else if (65 <=? c) && (c <=? 70) then Some (c - 55)
   else None)%N.

Fixpoint uint_digits (d : Decimal.uint) : jsstring :=
  match d with
  | Decimal.Nil => []
  | Decimal.D0 r => 48%N :: uint_digits r
  | Decimal.D1 r => 49%N :: uint_digits r
  | Decimal.D2 r => 50%N :: uint_digits r
  | Decimal.D3 r => 51%N :: uint_digits r
  | Decimal.D4 r => 52%N :: uint_digits r
  | Decimal.D5 r => 53%N :: uint_digits r
  | Decimal.D6 r => 54%N :: uint_digits r
  | Decimal.D7 r => 55%N :: uint_digits r
  | Decimal.D8 r => 56%N :: uint_digits r
  | Decimal.D9 r => 57%N :: uint_digits r
  end.

(** [n.toString()] for a non-negative integer such as a string length. *)
Definition nat_toString (n : nat) : jsstring := uint_digits (Nat.to_uint n).

(** [b.toString(16)] for an element of a [Uint8Array] (below 256). *)
Definition byte_toString16 (b : N) : jsstring :=
  (if b <? 16 then [hexdigit b] else [hexdigit (b / 16); hexdigit (b mod 16)])%N.

(** [s.padStart(targetLength, "0")] *)
Definition padStart0 (targetLength : nat) (s : jsstring) : jsstring :=
  repeat 48%N (targetLength - length s) ++ s.

(** ** The platform's numbers, digests and limits

    IEEE-754 doubles, their conversions to and from text, the text encoder
    and the digest of [crypto.subtle] are kept abstract, and so is the number
    of arguments that the engine accepts in one call: ECMA-262 sets no bound,
    every engine has one, and a call with more arguments throws a
    RangeError. *)

Record Platform := {
  number : Type;
  Number_toString : number -> jsstring;     (* Number::toString(x, 10) *)
  StringToNumber : jsstring -> number;      (* the value of a numeric literal *)
  Number_isFinite : number -> bool;
  TextEncoder_encode : jsstring -> list N;  (* UTF-8 *)
  crypto_subtle_digest : jsstring -> list N -> list N;
  max_arguments : nat                       (* the most arguments of one call *)
}.

Section Model.

Variable P : Platform.

(** ** JSON texts and their syntax trees *)

Inductive json :=
| JNull
| JBoolean (b : bool)
| JNumber (n : number P)
| JString (s : jsstring)
| JArray (elements : list json)
| JObject (members : list (jsstring * json)).

Definition isLeadingSurrogate (c : codeunit) : bool :=
  ((55296 <=? c) && (c <=? 56319))%N.
Definition isTrailingSurrogate (c : codeunit) : bool :=
  ((56320 <=? c) && (c <=? 57343))%N.

(** [UnicodeEscape(C)]: [\u] and four lowercase hexadecimal digits. *)
Definition UnicodeEscape (c : codeunit) : jsstring :=
  [BACKSLASH; 117; hexdigit (c / 4096); hexdigit (c / 256 mod 16);
   hexdigit (c / 16 mod 16); hexdigit (c mod 16)]%N.

(** One code point that is not a surrogate, as [QuoteJSONString] writes it. *)
Definition quote_codepoint (c : codeunit) : jsstring :=
  (if c =? 8 then [BACKSLASH; 98]
   else if c =? 9 then [BACKSLASH; 116]
   else if c =? 10 then [BACKSLASH; 110]
   else if c =? 12 then [BACKSLASH; 102]
   else if c =? 13 then [BACKSLASH; 114]
   else if c =? QUOTE then [BACKSLASH; QUOTE]
   else if c =? BACKSLASH then [BACKSLASH; BACKSLASH]
   else if c <? 32 then UnicodeEscape c
   else [c])%N.

(** The code points of the string in turn: a leading surrogate followed by a
    trailing one is a pair and is copied; a lone surrogate is escaped. *)
Fixpoint quote_chars (s : jsstring) : jsstring :=
  match s with
  | [] => []
  | c :: r =>
      if isLeadingSurrogate c then
        match r with
        | d :: r' =>
            if isTrailingSurrogate d then c :: d :: quote_chars r'
            else UnicodeEscape c ++ quote_chars r
        | [] => UnicodeEscape c
        end
      else if isTrailingSurrogate c then UnicodeEscape c ++ quote_chars r
      else quote_codepoint c ++ quote_chars r
  end.

Definition QuoteJSONString (s : jsstring) : jsstring :=
  QUOTE :: quote_chars s ++ [QUOTE].

(** The text [JSON.stringify] writes for a tree (no indentation). *)
Fixpoint print (j : json) : jsstring :=
  match j with
  | JNull => str "null"
  | JBoolean true => str "true"
  | JBoolean false => str "false"
  | JNumber n => Number_toString P n
  | JString s => QuoteJSONString s
  | JArray l => str "[" ++ join (str ",") (map print l) ++ str "]"
  | JObject m =>
      str "{"
      ++ join (str ",")
              (map (fun kv => QuoteJSONString (fst kv) ++ str ":" ++ print (snd kv)) m)
      ++ str "}"
  end.

(** *** [JSON.parse] *)

Definition isJSONWhitespace (c : codeunit) : bool :=
  ((c =? 9) || (c =? 10) || (c =? 13) || (c =? 32))%N.

Fixpoint skip_ws (s : jsstring) : jsstring :=
  match s with
  | c :: r => if isJSONWhitespace c then skip_ws r else s
  | [] => []
  end.

Definition unescape (e : codeunit) : option codeunit :=
  (if e =? QUOTE then Some QUOTE
   else if e =? BACKSLASH then Some BACKSLASH
   else if e =? 47 then Some 47
   else if e =? 98 then Some 8
   else if e =? 102 then Some 12
   else if e =? 110 then Some 10
   else if e =? 114 then Some 13
   else if e =? 116 then Some 9
   else None)%N.

Definition hex4 (h1 h2 h3 h4 : codeunit) : option codeunit :=
  match hexvalue h1, hexvalue h2, hexvalue h3, hexvalue h4 with
  | Some a, Some b, Some c, Some d => Some (a * 4096 + b * 256 + c * 16 + d)%N
  | _, _, _, _ => None
  end.

Definition cons_result (c : codeunit) (r : option (jsstring * jsstring))
  : option (jsstring * jsstring) :=
  match r with
  | Some (s, rest) => Some (c :: s, rest)
  | None => None
  end.

(** The characters of a string literal after its opening quote: the value
    and the text after the closing quote. *)
Fixpoint parse_string_chars (s : jsstring) : option (jsstring * jsstring) :=
  match s with
  | [] => None
  | c :: r =>
      if (c =? QUOTE)%N then Some ([], r)
      else if (c =? BACKSLASH)%N then
        match r with
        | e :: r1 =>
            if (e =? 117)%N then
              match r1 with
              | h1 :: h2 :: h3 :: h4 :: r2 =>
                  match hex4 h1 h2 h3 h4 with
                  | Some u => cons_result u (parse_string_chars r2)
                  | None => None
                  end
              | _ => None
              end
            else
              match unescape e with
              | Some u => cons_result u (parse_string_chars r1)
              | None => None
              end
        | [] => None
        end
      else if (c <? 32)%N then None
      else cons_result c (parse_string_chars r)
  end.

Definition isDigit (c : codeunit) : bool := ((48 <=? c) && (c <=? 57))%N.

Fixpoint span_digits (s : jsstring) : jsstring * jsstring :=
  match s with
  | c :: r =>
      if isDigit c then let (ds, rest) := span_digits r in (c :: ds, rest)
      else ([], s)
  | [] => ([], [])
  end.

(** A numeric literal: an optional minus sign, then a zero or a non-zero
    digit with more digits, then an optional fraction (a dot and digits) and
    an optional exponent (e or E, an optional sign, digits); the literal's
    text and the text after it. *)
Definition scan_number (s : jsstring) : option (jsstring * jsstring) :=
  let (sign, s1) :=
    match s with
    | c :: r => if (c =? 45)%N then ([c], r) else ([], s)
    | [] => ([], s)
    end in
  let int_part :=
    match s1 with
    | c :: r =>
        if (c =? 48)%N then Some ([c], r)
        else if isDigit c then let (ds, rest) := span_digits r in Some (c :: ds, rest)
        else None
    | [] => None
    end in
  match int_part with
  | None => None
  | Some (ip, s2) =>
      let frac_part :=
        match s2 with
        | c :: r =>
            if (c =? 46)%N then
              match span_digits r with
              | ([], _) => None
              | (ds, rest) => Some (c :: ds, rest)
              end
            else Some ([], s2)
        | [] => Some ([], s2)
        end in
      match frac_part with
      | None => None
      | Some (fp, s3) =>
          let exp_part :=
            match s3 with
            | c :: r =>
                if ((c =? 101) || (c =? 69))%N then
                  let (es, r1) :=
                    match r with
                    | d :: r' =>
                        if ((d =? 43) || (d =? 45))%N then ([d], r') else ([], r)
                    | [] => ([], r)
                    end in
                  match span_digits r1 with
                  | ([], _) => None
                  | (ds, rest) => Some (c :: es ++ ds, rest)
                  end
                else Some ([], s3)
            | [] => Some ([], s3)
            end in
          match exp_part with
          | None => None
          | Some (ep, s4) => Some (sign ++ ip ++ fp ++ ep, s4)
          end
      end
  end.

(** [strip_prefix p s]: the text after [p] when [s] starts with [p]. *)
Fixpoint strip_prefix (p s : jsstring) : option jsstring :=
  match p, s with
  | [], _ => Some s
  | a :: p', b :: s' => if (a =? b)%N then strip_prefix p' s' else None
  | _ :: _, [] => None
  end.

(** A value, then the elements or members that follow in an array or object.
    [None] is a SyntaxError.  [fuel] bounds the nesting and the number of
    elements; [JSON_parse] gives more than a text of that length can use. *)
Fixpoint parse_value (fuel : nat) (s : jsstring) : option (json * jsstring) :=
  match fuel with
  | O => None
  | S f =>
      match skip_ws s with
      | [] => None
      | c :: r =>
          if (c =? 123)%N then                                   (* { *)
            match skip_ws r with
            | d :: r' =>
                if (d =? 125)%N then Some (JObject [], r')
                else
                  match parse_members f (d :: r') with
                  | Some (m, rest) => Some (JObject m, rest)
                  | None => None
                  end
            | [] => None
            end
          else if (c =? 91)%N then                               (* [ *)
            match skip_ws r with
            | d :: r' =>
                if (d =? 93)%N then Some (JArray [], r')
                else
                  match parse_elements f (d :: r') with
                  | Some (l, rest) => Some (JArray l, rest)
                  | None => None
                  end
            | [] => None
            end
          else if (c =? QUOTE)%N then
            match parse_string_chars r with
            | Some (v, rest) => Some (JString v, rest)
            | None => None
            end
          else
            match strip_prefix (str "true") (c :: r) with
            | Some rest => Some (JBoolean true, rest)
            | None =>
            match strip_prefix (str "false") (c :: r) with
            | Some rest => Some (JBoolean false, rest)
            | None =>
            match strip_prefix (str "null") (c :: r) with
            | Some rest => Some (JNull, rest)
            | None =>
            match scan_number (c :: r) with
            | Some (lit, rest) => Some (JNumber (StringToNumber P lit), rest)
            | None => None
            end end end end
      end
  end

(** one or more values separated by commas, up to the closing bracket *)
with parse_elements (fuel : nat) (s : jsstring) : option (list json * jsstring) :=
  match fuel with
  | O => None
  | S f =>
      match parse_value f s with
      | None => None
      | Some (v, r) =>
          match skip_ws r with
          | c :: r' =>
              if (c =? 44)%N then
                match parse_elements f r' with
                | Some (l, rest) => Some (v :: l, rest)
                | None => None
                end
              else if (c =? 93)%N then Some ([v], r')
              else None
          | [] => None
          end
      end
  end

(** one or more [string : value] members separated by commas, up to the
    closing brace; [s] starts at the first member's opening quote *)
with parse_members (fuel : nat) (s : jsstring)
  : option (list (jsstring * json) * jsstring) :=
  match fuel with
  | O => None
  | S f =>
      match skip_ws s with
      | q :: r0 =>
          if (q =? QUOTE)%N then
            match parse_string_chars r0 with
            | None => None
            | Some (k, r1) =>
                match skip_ws r1 with
                | c :: r2 =>
                    if (c =? 58)%N then
                      match parse_value f r2 with
                      | None => None
                      | Some (v, r3) =>
                          match skip_ws r3 with
                          | d :: r4 =>
                              if (d =? 44)%N then
                                match parse_members f r4 with
                                | Some (m, rest) => Some ((k, v) :: m, rest)
                                | None => None
                                end
                              else if (d =? 125)%N then Some ([(k, v)], r4)
                              else None
                          | [] => None
                          end
                      end
                    else None
                | [] => None
                end
            end
          else None
      | [] => None
      end
  end.

(** [JSON.parse(text)]: one value and nothing but white space after it. *)
Definition JSON_parse (text : jsstring) : completion json :=
  match parse_value (2 * length text + 2) text with
  | Some (v, rest) =>
      match skip_ws rest with
      | [] => Normal v
      | _ :: _ => Throw SyntaxError
      end
  | None => Throw SyntaxError
  end.

(** *** [ToString] and [Array.prototype.join] on parsed values

    An element that is [null] joins as the empty string; a nested array
    through [Array.prototype.toString], that is [join(",")]; a nested object
    as [[object Object]] unless a member named [toString] shadows
    [Object.prototype.toString], in which case no primitive value is found
    and a TypeError is thrown. *)

Definition Array_join_with (toStr : json -> completion jsstring) (sep : jsstring)
  : list json -> completion jsstring :=
  fix go (a : list json) : completion jsstring :=
    match a with
    | [] => Normal []
    | x :: r =>
        e <- match x with JNull => Normal [] | _ => toStr x end;;
        match r with
        | [] => Normal e
        | _ :: _ => rest <- go r;; Normal (e ++ sep ++ rest)
        end
    end.

Fixpoint ToString (j : json) : completion jsstring :=
  match j with
  | JNull => Normal (str "null")
  | JBoolean true => Normal (str "true")
  | JBoolean false => Normal (str "false")
  | JNumber n => Normal (Number_toString P n)
  | JString s => Normal s
  | JArray l => Array_join_with ToString (str ",") l
  | JObject m =>
      if existsb (fun kv => jsstring_eqb (fst kv) (str "toString")) m
      then Throw TypeError
      else Normal (str "[object Object]")
  end.

(** [value.join(sep)] on the result of [JSON.parse]: only an array has a
    callable [join]. *)
Definition parsed_join (value : json) (sep : jsstring) : completion jsstring :=
  match value with
  | JArray l => Array_join_with ToString sep l
  | _ => Throw TypeError
  end.

(** ** The transform dispatcher (the [tools-app] element) *)

Definition hashHex (message algorithm : jsstring) : jsstring :=
  join []
       (map (fun b => padStart0 2 (byte_toString16 b))
            (crypto_subtle_digest P algorithm (TextEncoder_encode P message))).

(** [f(...arguments)]: the call has one argument for every element of the
    array, and the engine makes it only when it accepts that many. *)
Definition spread_arguments {A : Type} (arguments : list A) : completion (list A) :=
  if max_arguments P <? length arguments then Throw RangeError
  else Normal arguments.

(** [lines.map(line => line.match(/^\s+/)).filter(match => match !== null)]
    of the [deindent] case: one match for every line that starts with white
    space. *)
Definition indentations (functionInput : jsstring) : list jsstring :=
  filter_not_null (map String_match_leading_ws (split LF functionInput)).

(** The two reactive fields of the element. *)
Record ToolsApp := {
  _outputValue : jsstring;
  _inputError : bool
}.

Definition set_outputValue (this : ToolsApp) (v : jsstring) : ToolsApp :=
  {| _outputValue := v; _inputError := _inputError this |}.

Definition set_inputError (this : ToolsApp) (b : bool) : ToolsApp :=
  {| _outputValue := _outputValue this; _inputError := b |}.

(** [try { this._outputValue = e } catch { ... }], where the handler sets
    [_inputError] and assigns the empty string to [_outputValue]. *)
Definition try_outputValue (this : ToolsApp) (e : completion jsstring) : ToolsApp :=
  match e with
  | Normal v => set_outputValue this v
  | Throw _ => set_outputValue (set_inputError this true) []
  end.

(** [_inputChange]: [functionName] is the value of the select element and
    [functionInput] the value of the input area.  The result is the element
    once the promise of the asynchronous handler has settled, when no other
    handler runs while the digest is awaited ([_inputChange_start] and
    [_inputChange_resume] below split the handler at the [await]); [Throw] is
    a rejected promise.  In the [deindent] case [Math.min] is called with one
    argument for every indented line, outside any [try]; [deindent] is the
    value of the case when that call is made. *)
Definition _inputChange (functionName functionInput : jsstring) (this : ToolsApp)
  : completion ToolsApp :=
  let this := set_inputError this false in
  if jsstring_eqb functionName [] then Normal this
  else if jsstring_eqb functionName (str "encode-base64") then
    Normal (try_outputValue this (btoa functionInput))
  else if jsstring_eqb functionName (str "decode-base64") then
    Normal (try_outputValue this (atob functionInput))
  else if jsstring_eqb functionName (str "SHA-1")
          || jsstring_eqb functionName (str "SHA-256")
          || jsstring_eqb functionName (str "SHA-512") then
    Normal (set_outputValue this (hashHex functionInput functionName))
  else if jsstring_eqb functionName (str "json-escape") then
    Normal (try_outputValue this
              (Normal (String_slice (print (JString functionInput))
                                    (Int 1) (Some (Int (-1))))))
  else if jsstring_eqb functionName (str "lines-to-json-array") then
    Normal (try_outputValue this
              (Normal (print (JArray (map JString (split LF functionInput))))))
  else if jsstring_eqb functionName (str "json-array-to-lines") then
    Normal (try_outputValue this
              (value <- JSON_parse functionInput;; parsed_join value [LF]))
  else if jsstring_eqb functionName (str "length") then
    Normal (set_outputValue this (nat_toString (length functionInput)))
  else if jsstring_eqb functionName (str "deindent") then
    _ <- spread_arguments (indentations functionInput);;
    Normal (set_outputValue this (deindent functionInput))
  else Throw (Error (str "Unexpected function: " ++ functionName)).

(** *** The handler around its [await]

    The handler is an asynchronous function and the hash cases await the
    digest.  It runs up to there at once (the error flag is reset and the
    promise of [hashHex] is created); the assignment to [_outputValue]
    happens when the digest is there, on the element as it is then.  The
    other cases have no [await] and settle at once. *)

Inductive suspension :=
| Settled (this : ToolsApp)
| Awaiting (this : ToolsApp) (hex : jsstring).

Definition _inputChange_start (functionName functionInput : jsstring) (this : ToolsApp)
  : completion suspension :=
  if jsstring_eqb functionName (str "SHA-1")
     || jsstring_eqb functionName (str "SHA-256")
     || jsstring_eqb functionName (str "SHA-512") then
    Normal (Awaiting (set_inputError this false) (hashHex functionInput functionName))
  else
    this <- _inputChange functionName functionInput this;;
    Normal (Settled this).

(** [this._outputValue = hex], after the [await]. *)
Definition _inputChange_resume (hex : jsstring) (this : ToolsApp) : ToolsApp :=
  set_outputValue this hex.

(** The identifiers the select element offers. *)
Definition supported : list jsstring :=
  map str ["decode-base64"; "encode-base64"; "SHA-1"; "SHA-256"; "SHA-512";
           "json-escape"; "lines-to-json-array"; "json-array-to-lines";
           "length"; "deindent"]%string.

(** ** The error reporter: values, objects and the heap

    A failure value is any JavaScript value.  Objects live in a heap and are
    referred to by address, so that a value can reach itself.  The universe
    has the primitives, ordinary objects, arrays, and the instances of
    [Error], of the native errors, of classes that extend [Error] and of
    [DOMException]; functions, accessors written by the page, [toJSON]
    methods and proxies are outside it.  A listener of the model therefore
    throws only what [JSON.stringify] throws by itself; what code of the page
    that runs inside the listener (a getter, a [toJSON] method, a proxy
    trap) may throw is not described. *)

Definition addr := nat.

Inductive value :=
| VUndefined
| VNull
| VBoolean (b : bool)
| VNumber (n : number P)
| VBigInt (z : Z)
| VString (s : jsstring)
| VSymbol (description : jsstring)
| VObject (a : addr).

Inductive class :=
| ClassObject
| ClassArray
| ClassError
| ClassNativeError (name : jsstring)   (* TypeError, RangeError, ... *)
| ClassUserError (name : jsstring)     (* class name extends Error *)
| ClassDOMException.

(** An own data property.  The internal slots that the accessors of a
    prototype read ([stack], and the [name], [message] and [code] of a
    [DOMException]) are kept as own properties that are not enumerable. *)
Record property := { key : jsstring; enumerable : bool; val : value }.

Inductive object :=
| Ordinary (c : class) (props : list property)   (* in [[OwnPropertyKeys]] order *)
| ArrayObject (elements : list value).

Definition class_of (o : object) : class :=
  match o with
  | Ordinary c _ => c
  | ArrayObject _ => ClassArray
  end.

(** The heap, newest object first; an object's address is the number of
    objects allocated before it. *)
Definition heap := list object.

Fixpoint lookup (h : heap) (a : addr) : option object :=
  match h with
  | [] => None
  | o :: r => if (a =? length r)%nat then Some o else lookup r a
  end.

Definition alloc (h : heap) (o : object) : heap * value :=
  (o :: h, VObject (length h)).

Fixpoint update (h : heap) (a : addr) (f : object -> object) : heap :=
  match h with
  | [] => []
  | o :: r => if (a =? length r)%nat then f o :: r else o :: update r a f
  end.

(** [o.k = v] on an ordinary object: the value of an existing property is
    replaced, a new property is added last and is enumerable. *)
Fixpoint set_property (props : list property) (k : jsstring) (v : value)
  : list property :=
  match props with
  | [] => [{| key := k; enumerable := true; val := v |}]
  | p :: r =>
      if jsstring_eqb (key p) k
      then {| key := k; enumerable := enumerable p; val := v |} :: r
      else p :: set_property r k v
  end.

Definition assign (h : heap) (target : value) (k : jsstring) (v : value) : heap :=
  match target with
  | VObject a =>
      update h a (fun o => match o with
                           | Ordinary c props => Ordinary c (set_property props k v)
                           | ArrayObject _ => o
                           end)
  | _ => h
  end.

Definition own_property (o : object) (k : jsstring) : option value :=
  match o with
  | Ordinary _ props =>
      option_map val (find (fun p => jsstring_eqb (key p) k) props)
  | ArrayObject _ => None
  end.

(** The [[Prototype]] of a class's prototype object.  Web IDL makes
    [Error.prototype] the prototype of [DOMException.prototype]. *)
Definition superclass (c : class) : option class :=
  match c with
  | ClassObject => None
  | ClassArray => Some ClassObject
  | ClassError => Some ClassObject
  | ClassNativeError _ => Some ClassError
  | ClassUserError _ => Some ClassError
  | ClassDOMException => Some ClassError
  end.

Definition class_eqb (c d : class) : bool :=
  match c, d with
  | ClassObject, ClassObject => true
  | ClassArray, ClassArray => true
  | ClassError, ClassError => true
  | ClassNativeError n, ClassNativeError m => jsstring_eqb n m
  | ClassUserError n, ClassUserError m => jsstring_eqb n m
  | ClassDOMException, ClassDOMException => true
  | _, _ => false
  end.

(** The prototype chain of class [c] (at most three long) reaches the
    prototype of [target]. *)
Definition inherits (c target : class) : bool :=
  class_eqb c target
  || match superclass c with
     | None => false
     | Some p =>
         class_eqb p target
         || match superclass p with
            | None => false
            | Some q => class_eqb q target
            end
     end.

(** [v instanceof target]; a primitive is an instance of nothing. *)
Definition instanceof (h : heap) (v : value) (target : class) : bool :=
  match v with
  | VObject a =>
      match lookup h a with
      | Some o => inherits (class_of o) target
      | None => false
      end
  | _ => false
  end.

Definition constructor_name (c : class) : jsstring :=
  match c with
  | ClassObject => str "Object"
  | ClassArray => str "Array"
  | ClassError => str "Error"
  | ClassNativeError n => n
  | ClassUserError n => n
  | ClassDOMException => str "DOMException"
  end.

(** The data properties that the prototypes hold and this program reads:
    [name] and [message] of the error prototypes. *)
Definition prototype_property (c : class) (k : jsstring) : value :=
  if jsstring_eqb k (str "name") then
    match c with
    | ClassObject | ClassArray => VUndefined
    | ClassNativeError n => VString n
    | ClassError | ClassUserError _ | ClassDOMException => VString (str "Error")
    end
  else if jsstring_eqb k (str "message") then
    match c with
    | ClassObject | ClassArray => VUndefined
    | _ => VString []
    end
  else VUndefined.

(** [v.k] for the reads of this program ([cause], [stack], [name],
    [message], [code], and [name] of a constructor): an own property, or a
    property of the prototype chain; a primitive has none of them. *)
Definition Get (h : heap) (v : value) (k : jsstring) : value :=
  match v with
  | VObject a =>
      match lookup h a with
      | Some o =>
          match own_property o k with
          | Some x => x
          | None => prototype_property (class_of o) k
          end
      | None => VUndefined
      end
  | _ => VUndefined
  end.

Definition typeof (v : value) : jsstring :=
  match v with
  | VUndefined => str "undefined"
  | VNull => str "object"
  | VBoolean _ => str "boolean"
  | VNumber _ => str "number"
  | VBigInt _ => str "bigint"
  | VString _ => str "string"
  | VSymbol _ => str "symbol"
  | VObject _ => str "object"
  end.

(** [error?.constructor?.name ?? typeof error].  The constructor of a
    primitive is its wrapper's; an object's is its class's unless an own
    property [constructor] shadows it. *)
Definition typeTag (h : heap) (error : value) : value :=
  match error with
  | VUndefined | VNull => VString (typeof error)
  | VBoolean _ => VString (str "Boolean")
  | VNumber _ => VString (str "Number")
  | VBigInt _ => VString (str "BigInt")
  | VString _ => VString (str "String")
  | VSymbol _ => VString (str "Symbol")
  | VObject a =>
      match lookup h a with
      | None => VString (typeof error)
      | Some o =>
          match own_property o (str "constructor") with
          | None => VString (constructor_name (class_of o))
          | Some ctor =>
              match Get h ctor (str "name") with
              | VUndefined | VNull => VString (typeof error)
              | n => n
              end
          end
      end
  end.

(** *** [JSON.stringify] on heap values

    [SerializeJSONProperty] gives the tree of the text, [None] for
    [undefined].  [stack] holds the objects being serialized; meeting one of
    them again is a cycle and throws a TypeError, and so does a BigInt.
    [fuel] bounds the nesting; [JSON_stringify] gives one more than the heap
    has objects, which no acyclic path exceeds. *)

Fixpoint serialize_elements (ser : value -> completion (option json))
         (elements : list value) : completion (list json) :=
  match elements with
  | [] => Normal []
  | e :: r =>
      j <- ser e;;
      l <- serialize_elements ser r;;
      Normal (match j with Some t => t | None => JNull end :: l)
  end.

Fixpoint serialize_props (ser : value -> completion (option json))
         (props : list property) : completion (list (jsstring * json)) :=
  match props with
  | [] => Normal []
  | p :: r =>
      if enumerable p then
        j <- ser (val p);;
        m <- serialize_props ser r;;
        Normal (match j with Some t => (key p, t) :: m | None => m end)
      else serialize_props ser r
  end.

Fixpoint SerializeJSONProperty (fuel : nat) (h : heap) (stack : list addr)
         (v : value) : completion (option json) :=
  match v with
  | VNull => Normal (Some JNull)
  | VBoolean b => Normal (Some (JBoolean b))
  | VString s => Normal (Some (JString s))
  | VNumber n => Normal (Some (if Number_isFinite P n then JNumber n else JNull))
  | VBigInt _ => Throw TypeError
  | VUndefined => Normal None
  | VSymbol _ => Normal None
  | VObject a =>
      match fuel with
      | O => Throw RangeError
      | S f =>
          if existsb (Nat.eqb a) stack then Throw TypeError
          else
            match lookup h a with
            | None => Normal None
            | Some (ArrayObject elements) =>
                l <- serialize_elements
                       (SerializeJSONProperty f h (a :: stack)) elements;;
                Normal (Some (JArray l))
            | Some (Ordinary _ props) =>
                m <- serialize_props
                       (SerializeJSONProperty f h (a :: stack)) props;;
                Normal (Some (JObject m))
            end
      end
  end.

(** [JSON.stringify(v)]: a text, or [None] for [undefined]. *)
Definition JSON_stringify (h : heap) (v : value) : completion (option jsstring) :=
  j <- SerializeJSONProperty (S (length h)) h [] v;;
  Normal (option_map print j).

(** A primitive value other than a BigInt, and its tree ([None] for
    [undefined] and for a symbol). *)
Definition primitive (v : value) : bool :=
  match v with
  | VObject _ | VBigInt _ => false
  | _ => true
  end.

Definition primitive_json (v : value) : option json :=
  match v with
  | VNull => Some JNull
  | VBoolean b => Some (JBoolean b)
  | VNumber n => Some (if Number_isFinite P n then JNumber n else JNull)
  | VString s => Some (JString s)
  | _ => None
  end.

(** *** The report *)

Definition data (k : string) (v : value) : property :=
  {| key := str k; enumerable := true; val := v |}.

(** Both functions build a fresh object literal. *)
Definition getErrorDetails (h : heap) (error : value) : heap * value :=
  alloc h (Ordinary ClassObject
             [data "cause" (Get h error (str "cause"));
              data "stack" (Get h error (str "stack"));
              data "name" (Get h error (str "name"))]).

Definition getDomExceptionDetails (h : heap) (error : value) : heap * value :=
  alloc h (Ordinary ClassObject
             [data "message" (Get h error (str "message"));
              data "name" (Get h error (str "name"));
              data "code" (Get h error (str "code"))]).

Record ErrorEvent := {
  error : value;
  colno : number P;
  filename : jsstring;
  lineno : number P;
  message : jsstring
}.

Record PromiseRejectionEvent := { reason : value }.

(** A call of [fetch]; the promise it returns is dropped. *)
Record request := {
  url : jsstring;
  method : jsstring;
  body : option jsstring;
  headers : list (jsstring * jsstring);
  keepalive : bool
}.

Definition post (path : string) (text : option jsstring) : request :=
  {| url := str path;
     method := str "POST";
     body := text;
     headers := [(str "Content-Type", str "application/json")];
     keepalive := true |}.

(** [try { raw = JSON.stringify(v) } catch {}] with [raw] undefined before. *)
Definition try_stringify (h : heap) (v : value) : value :=
  match JSON_stringify h v with
  | Normal (Some text) => VString text
  | Normal None => VUndefined
  | Throw _ => VUndefined
  end.

(** The listener of [error] events: the requests it issues, or what it
    throws. *)
Definition errorListener (h : heap) (event : ErrorEvent) : completion (list request) :=
  let error := error event in
  let rawError := try_stringify h error in
  let (h, body) :=
    alloc h (Ordinary ClassObject
               [data "colno" (VNumber (colno event));
                data "filename" (VString (filename event));
                data "lineno" (VNumber (lineno event));
                data "message" (VString (message event));
                data "type" (typeTag h error);
                data "rawError" rawError]) in
  let (h, errorDetails) :=
    if instanceof h error ClassError then getErrorDetails h error
    else if instanceof h error ClassDOMException then getDomExceptionDetails h error
    else (h, VUndefined) in
  let h := assign h body (str "error") errorDetails in
  text <- JSON_stringify h body;;
  Normal [post "/api/report/error" text].

(** The listener of [unhandledrejection] events. *)
Definition rejectionListener (h : heap) (event : PromiseRejectionEvent)
  : completion (list request) :=
  let reason := reason event in
  let rawReason := try_stringify h reason in
  let (h, body) :=
    alloc h (Ordinary ClassObject
               [data "type" (typeTag h reason);
                data "rawReason" rawReason]) in
  let (h, errorDetails) :=
    if instanceof h reason ClassError then getErrorDetails h reason
    else if instanceof h reason ClassDOMException then getDomExceptionDetails h reason
    else (h, VUndefined) in
  let h := assign h body (str "error") errorDetails in
  text <- JSON_stringify h body;;
  Normal [post "/api/report/unhandled-rejection" text].

(** The member of a tree that is an object. *)
Definition member (k : string) (j : json) : option json :=
  match j with
  | JObject m =>
      option_map snd (find (fun kv => jsstring_eqb (fst kv) (str k)) m)
  | _ => None
  end.

Definition member_names (j : json) : list jsstring :=
  match j with
  | JObject m => map fst m
  | _ => []
  end.

End Model.

(** ** A platform to run the model on

    Its numbers are the integers, which is enough for positions in a source
    file and for the inputs used below; the text encoder, the digest and the
    bound on the arguments of a call are stand-ins (no property depends on
    them). *)

Definition Z_toString (z : Z) : jsstring :=
  match z with
  | Z0 => str "0"
  | Zpos p => uint_digits (Pos.to_uint p)
  | Zneg p => 45%N :: uint_digits (Pos.to_uint p)
  end.

Definition Z_ofLiteral (lit : jsstring) : Z :=
  let digits s :=
    fold_left (fun acc c => (acc * 10 + Z.of_N (c - 48))%Z) (fst (span_digits s)) 0%Z in
  match lit with
  | c :: r => if (c =? 45)%N then (- digits r)%Z else digits lit
  | [] => 0%Z
  end.

Definition integerPlatform : Platform :=
  {| number := Z;
     Number_toString := Z_toString;
     StringToNumber := Z_ofLiteral;
     Number_isFinite := fun _ => true;
     TextEncoder_encode := fun s => s;
     crypto_subtle_digest := fun _ bytes => bytes;
     max_arguments := N.to_nat 65536 |}.

Arguments JNull {P}.
Arguments JBoolean {P} b.
Arguments JNumber {P} n.
Arguments JString {P} s.
Arguments VUndefined {P}.
Arguments VNull {P}.
Arguments VBoolean {P} b.
Arguments VNumber {P} n.
Arguments VBigInt {P} z.
Arguments VString {P} s.
Arguments VSymbol {P} description.
Arguments VObject {P} a.

(** ** What the constructors of failure values build *)

Section Constructors.

Variable P : Platform.

Definition slot (k : string) (v : value P) : property P :=
  {| key := str k; enumerable := false; val := v |}.

(** [new C(message, { cause })] for [Error] or a class below it; [cause] is
    an own property only when the option is given. *)
Definition new_Error (c : class) (message stack : jsstring) (cause : option (value P))
  : object P :=
  Ordinary c
           ([slot "stack" (VString stack); slot "message" (VString message)]
            ++ match cause with
               | Some v => [slot "cause" v]
               | None => []
               end).

(** [new DOMException(message, name)]; [code] is the legacy code of the
    name. *)
Definition new_DOMException (message name : jsstring) (code : number P)
           (stack : jsstring) : object P :=
  Ordinary ClassDOMException
           [slot "stack" (VString stack); slot "message" (VString message);
            slot "name" (VString name); slot "code" (VNumber code)].

End Constructors.

(** ** Failure values used in the examples below *)

(** [c = {}; c.self = c; e = new TypeError("boom", { cause: c })]: the
    object [c] is at address 0 and the error [e] at address 1. *)
Definition cyclic_cause_heap : heap integerPlatform :=
  [new_Error (ClassNativeError (str "TypeError")) (str "boom")
             (str "TypeError: boom") (Some (VObject 0));
   Ordinary ClassObject [data "self" (VObject 0)]].

(** [new DOMException("The operation was aborted.", "AbortError")], whose
    legacy code is 20, at address 0. *)
Definition abort_heap : heap integerPlatform :=
  [new_DOMException integerPlatform (str "The operation was aborted.")
                    (str "AbortError") 20%Z (str "Error: The operation was aborted.")].

(** [new Error("boom")] at address 0. *)
Definition plain_error_heap : heap integerPlatform :=
  [new_Error ClassError (str "boom") (str "Error: boom") None].

Definition error_event (v : value integerPlatform) : ErrorEvent integerPlatform :=
  {| error := v;
     colno := 5%Z;
     filename := str "https://example.org/app.js";
     lineno := 12%Z;
     message := str "Uncaught error" |}.

Definition rejection_event (v : value integerPlatform)
  : PromiseRejectionEvent integerPlatform :=
  {| reason := v |}.

(** What the [error] listener posts for the exception of [abort_heap]. *)
Definition abort_details : json integerPlatform :=
  JObject [(str "stack", JString (str "Error: The operation was aborted."));
           (str "name", JString (str "AbortError"))].

Definition abort_report : json integerPlatform :=
  JObject [(str "colno", JNumber (P:=integerPlatform) 5%Z);
           (str "filename", JString (str "https://example.org/app.js"));
           (str "lineno", JNumber (P:=integerPlatform) 12%Z);
           (str "message", JString (str "Uncaught error"));
           (str "type", JString (str "DOMException"));
           (str "rawError", JString (str "{}"));
           (str "error", abort_details)].

(** ** The rest of the element: storage, selection and focus

    [localStorage] holds strings under string keys.  The select element has
    the option values of the template ([supported], in tree order); its
    value is the value of the selected option, the first option after the
    first render, and assigning a value that no option has leaves no option
    selected and the value empty.  Storage is assumed to be available (no
    SecurityError or exceeded quota). *)

Definition lastFunctionIdentifier : jsstring := str "last_function".

Definition Storage := list (jsstring * jsstring).

Definition getItem (storage : Storage) (k : jsstring) : option jsstring :=
  option_map snd (find (fun kv => jsstring_eqb (fst kv) k) storage).

Definition setItem (storage : Storage) (k v : jsstring) : Storage :=
  (k, v) :: filter (fun kv => negb (jsstring_eqb (fst kv) k)) storage.

(** The value of the select element after the first render. *)
Definition select_initial_value : jsstring :=
  match supported with
  | v :: _ => v
  | [] => []
  end.

(** [select.value = v] *)
Definition select_assign (v : jsstring) : jsstring :=
  if existsb (jsstring_eqb v) supported then v else [].

(** A string that stands for itself between the double quotes of a CSS
    attribute selector: no quote, backslash, newline, NUL or surrogate. *)
Definition css_string_safe (v : jsstring) : bool :=
  forallb (fun c => negb ((c =? 0) || (c =? 10) || (c =? 12) || (c =? 13)
                          || (c =? QUOTE) || (c =? BACKSLASH)
                          || isLeadingSurrogate c || isTrailingSurrogate c)%N) v.

Section Element.

Variable P : Platform.

(** What [querySelector] does with the selector when the interpolated
    string is not CSS-safe (a SyntaxError, or the value of the option that
    some other selector matches) is left to the platform. *)
Variable querySelector_other : jsstring -> completion (option jsstring).

(** [this._selectElement.querySelector(`option[value="${v}"]`)]: the value of
    the first option that matches, [None] for [null]. *)
Definition querySelector_option (v : jsstring) : completion (option jsstring) :=
  if css_string_safe v then Normal (find (jsstring_eqb v) supported)
  else querySelector_other v.

Record Element := {
  fields : ToolsApp;                  (* _outputValue and _inputError *)
  _lastFunction : option jsstring;    (* [None] is null *)
  _focusAfterSelect : bool;
  select_value : jsstring;            (* this._selectElement.value *)
  textarea_value : jsstring           (* this._inputContainerTextarea.value *)
}.

Definition with_fields (el : Element) (f : ToolsApp) : Element :=
  {| fields := f;
     _lastFunction := _lastFunction el;
     _focusAfterSelect := _focusAfterSelect el;
     select_value := select_value el;
     textarea_value := textarea_value el |}.

Definition with_focusAfterSelect (el : Element) (b : bool) : Element :=
  {| fields := fields el;
     _lastFunction := _lastFunction el;
     _focusAfterSelect := b;
     select_value := select_value el;
     textarea_value := textarea_value el |}.

Definition with_select_value (el : Element) (v : jsstring) : Element :=
  {| fields := fields el;
     _lastFunction := _lastFunction el;
     _focusAfterSelect := _focusAfterSelect el;
     select_value := v;
     textarea_value := textarea_value el |}.

(** The field initializers of the class and the first render. *)
Definition connected (storage : Storage) : Element :=
  {| fields := {| _outputValue := []; _inputError := false |};
     _lastFunction := getItem storage lastFunctionIdentifier;
     _focusAfterSelect := false;
     select_value := select_initial_value;
     textarea_value := [] |}.

Definition firstUpdated (el : Element) : completion Element :=
  match _lastFunction el with
  | Some lastFunction =>
      match lastFunction with
      | [] => Normal el
      | _ :: _ =>
          option <- querySelector_option lastFunction;;
          match option with
          | Some _ => Normal (with_select_value el (select_assign lastFunction))
          | None => Normal el
          end
      end
  | None => Normal el
  end.

Definition _selectPointerDown (pointerType : jsstring) (el : Element) : Element :=
  if jsstring_eqb pointerType (str "mouse") || jsstring_eqb pointerType (str "touch")
  then with_focusAfterSelect el true
  else el.

(** [this._inputChange()] on the element, the promise not awaited: the
    fields once it has settled, and the reason when it is rejected (the
    error flag has been reset before the rejection). *)
Definition call_inputChange (el : Element) : Element * option exn :=
  match _inputChange P (select_value el) (textarea_value el) (fields el) with
  | Normal f => (with_fields el f, None)
  | Throw e => (with_fields el (set_inputError (fields el) false), Some e)
  end.

Record SelectChange := {
  element : Element;
  storage_after : Storage;
  focus_called : bool;                (* this._inputContainerTextarea.focus() *)
  unhandled_rejection : option exn
}.

Definition _selectChange (el : Element) (storage : Storage) : SelectChange :=
  let storage := setItem storage lastFunctionIdentifier (select_value el) in
  let (el, rejection) := call_inputChange el in
  if _focusAfterSelect el then
    {| element := with_focusAfterSelect el false;
       storage_after := storage;
       focus_called := true;
       unhandled_rejection := rejection |}
  else
    {| element := el;
       storage_after := storage;
       focus_called := false;
       unhandled_rejection := rejection |}.

End Element.

(** [n] lines, each of them a space and the letter [a]. *)
Definition indented_lines (n : nat) : jsstring :=
  join [LF] (repeat (str " a") n).


(** [class HttpError extends Error {}] and
    [new HttpError("not found", { cause: "offline" })] at address 0. *)
Definition http_error_heap : heap integerPlatform :=
  [new_Error (ClassUserError (str "HttpError")) (str "not found")
             (str "Error: not found") (Some (VString (str "offline")))].

(** ** The members of a report *)

Section Report.

Variable P : Platform.

(** A member that is written only when its value has a JSON text. *)
Definition optional_member (k : string) (j : option (json P))
  : list (jsstring * json P) :=
  match j with
  | Some t => [(str k, t)]
  | None => []
  end.

Definition number_json (n : number P) : json P :=
  if Number_isFinite P n then JNumber n else JNull.

(** The four members that an error report takes from the event. *)
Definition location_members (event : ErrorEvent P) : list (jsstring * json P) :=
  [(str "colno", number_json (colno event));
   (str "filename", JString (filename event));
   (str "lineno", number_json (lineno event));
   (str "message", JString (message event))].

End Report.

Unset Implicit Arguments.

(** * Properties *)

(** ** [split] and [join] *)

Lemma split_not_nil (sep : codeunit) (s : jsstring) : split sep s <> [].
Proof.
  destruct s as [|c r]; simpl; [discriminate|].
  destruct (c =? sep)%N; [discriminate|].
  destruct (split sep r); discriminate.
Qed.

Lemma join_cons (sep x : jsstring) (y : jsstring) (r : list jsstring) :
  join sep (x :: y :: r) = x ++ sep ++ join sep (y :: r).
Proof. reflexivity. Qed.

Lemma join_split (sep : codeunit) (s : jsstring) : join [sep] (split sep s) = s.
Proof.
  induction s as [|c r IH]; [reflexivity|].
  simpl split. destruct (N.eqb_spec c sep) as [->|Hne].
  - pose proof (split_not_nil sep r) as Hnn.
    destruct (split sep r) as [|l ls]; [congruence|].
    rewrite join_cons, IH. reflexivity.
  - pose proof (split_not_nil sep r) as Hnn.
    destruct (split sep r) as [|l ls]; [congruence|].
    destruct ls as [|l' ls'].
    + simpl in *. now rewrite IH.
    + rewrite join_cons in *. rewrite <- IH. reflexivity.
Qed.

Lemma split_no_sep (sep : codeunit) (s : jsstring) :
  Forall (fun l => ~ In sep l) (split sep s).
Proof.
  induction s as [|c r IH]; simpl.
  - constructor; [intros []|constructor].
  - destruct (N.eqb_spec c sep) as [->|Hne].
    + constructor; [intros []|exact IH].
    + destruct (split sep r) as [|l ls].
      * constructor; [|constructor]. intros [H|[]]; congruence.
      * inversion IH as [|? ? Hl Hls]; subst.
        constructor; [|exact Hls]. intros [H|H]; [congruence|tauto].
Qed.

Lemma split_app_sep (sep : codeunit) (x rest : jsstring) :
  ~ In sep x -> split sep (x ++ sep :: rest) = x :: split sep rest.
Proof.
  induction x as [|c r IH]; intros Hx; simpl.
  - now rewrite N.eqb_refl.
  - destruct (N.eqb_spec c sep) as [->|Hne]; [exfalso; apply Hx; now left|].
    rewrite IH; [reflexivity|]. intros H; apply Hx; now right.
Qed.

Lemma split_one (sep : codeunit) (x : jsstring) :
  ~ In sep x -> split sep x = [x].
Proof.
  induction x as [|c r IH]; intros Hx; simpl; [reflexivity|].
  destruct (N.eqb_spec c sep) as [->|Hne]; [exfalso; apply Hx; now left|].
  rewrite IH; [reflexivity|]. intros H; apply Hx; now right.
Qed.

Lemma split_join (sep : codeunit) (ls : list jsstring) :
  ls <> [] -> Forall (fun l => ~ In sep l) ls -> split sep (join [sep] ls) = ls.
Proof.
  induction ls as [|x r IH]; intros Hnn Hall; [congruence|].
  inversion Hall as [|? ? Hx Hr]; subst.
  destruct r as [|y r'].
  - simpl. now apply split_one.
  - rewrite join_cons. simpl app. rewrite split_app_sep by exact Hx.
    f_equal. apply IH; [discriminate|exact Hr].
Qed.

(** ** [slice] *)

Lemma String_slice_from (s : jsstring) (k : nat) :
  String_slice s (Int (Z.of_nat k)) None = skipn k s.
Proof.
  unfold String_slice.
  destruct (Z.ltb_spec (Z.of_nat k) 0) as [H|_]; [lia|].
  destruct (Z.ltb_spec (Z.min (Z.of_nat k) (Z.of_nat (length s))) (Z.of_nat (length s)))
    as [Hlt|Hge].
  - assert (Hk : (k < length s)%nat) by lia.
    replace (Z.min (Z.of_nat k) (Z.of_nat (length s))) with (Z.of_nat k) by lia.
    rewrite Nat2Z.id.
    replace (Z.to_nat (Z.of_nat (length s) - Z.of_nat k)) with (length (skipn k s))
      by (rewrite length_skipn; lia).
    apply firstn_all.
  - symmetry. apply skipn_all2. lia.
Qed.

Lemma skipn_no_sep (sep : codeunit) (k : nat) (l : jsstring) :
  ~ In sep l -> ~ In sep (skipn k l).
Proof.
  intros H Hin. apply H.
  rewrite <- (firstn_skipn k l). apply in_or_app. now right.
Qed.

(** ** [Math.min] over the lengths of the matches *)

Lemma fold_min_from (ks : list nat) (a : nat) :
  exists m,
    fold_left (fun lowest number => if num_ltb number lowest then number else lowest)
              (map (fun k => Int (Z.of_nat k)) ks) (Int (Z.of_nat a))
    = Int (Z.of_nat m)
    /\ (m = a \/ In m ks) /\ (m <= a)%nat /\ (forall k, In k ks -> (m <= k)%nat).
Proof.
  revert a. induction ks as [|k r IH]; intros a; simpl.
  - exists a. repeat split; auto. intros k [].
  - destruct (Z.ltb_spec (Z.of_nat k) (Z.of_nat a)) as [Hlt|Hge].
    + destruct (IH k) as (m & Hm & Hin & Hle & Hall). exists m.
      repeat split; [exact Hm| |lia|].
      * destruct Hin as [->|Hin]; auto.
      * intros k' [<-|Hk']; [exact Hle|auto].
    + destruct (IH a) as (m & Hm & Hin & Hle & Hall). exists m.
      repeat split; [exact Hm| |lia|].
      * destruct Hin as [->|Hin]; auto.
      * intros k' [<-|Hk']; [lia|auto].
Qed.

Lemma Math_min_lengths (ks : list nat) :
  (ks = [] /\ Math_min (map (fun k => Int (Z.of_nat k)) ks) = Infinity)
  \/ exists m, Math_min (map (fun k => Int (Z.of_nat k)) ks) = Int (Z.of_nat m)
               /\ In m ks /\ forall k, In k ks -> (m <= k)%nat.
Proof.
  destruct ks as [|k r]; [left; split; reflexivity|right].
  unfold Math_min. simpl.
  destruct (fold_min_from r k) as (m & Hm & Hin & Hle & Hall).
  exists m. split; [exact Hm|]. split.
  - destruct Hin as [->|Hin]; [now left|now right].
  - intros k' [<-|Hk']; [exact Hle|auto].
Qed.

Lemma in_match_lengths (lines : list jsstring) (k : nat) :
  In k (map (@length codeunit)
            (filter_not_null (map String_match_leading_ws lines)))
  <-> exists l, In l lines /\ leading_whitespace l <> []
                /\ length (leading_whitespace l) = k.
Proof.
  induction lines as [|l r IH]; simpl.
  - split; [intros []|intros (l & [] & _)].
  - unfold String_match_leading_ws at 1.
    destruct (leading_whitespace l) as [|c m] eqn:E; simpl.
    + rewrite IH. split.
      * intros (l' & Hin & Hne & Hk). exists l'. auto.
      * intros (l' & [<-|Hin] & Hne & Hk); [congruence|]. exists l'. auto.
    + rewrite IH. split.
      * intros [Hk|(l' & Hin & Hne & Hk)].
        -- exists l. rewrite E. split; [now left|]. split; [discriminate|exact Hk].
        -- exists l'. auto.
      * intros (l' & [<-|Hin] & Hne & Hk).
        -- left. now rewrite E in Hk.
        -- right. exists l'. auto.
Qed.

(** ** [deindent] *)

Lemma deindent_strip (s : jsstring) :
  exists k,
    deindent s = join [LF] (map (skipn k) (split LF s))
    /\ ((Forall (fun l => leading_whitespace l = []) (split LF s) /\ k = O)
        \/ ((exists l, In l (split LF s) /\ leading_whitespace l <> []
                       /\ length (leading_whitespace l) = k)
            /\ forall l, In l (split LF s) -> leading_whitespace l <> [] ->
                         (k <= length (leading_whitespace l))%nat)).
Proof.
  unfold deindent. set (lines := split LF s).
  rewrite <- (map_map (@length codeunit) (fun k => Int (Z.of_nat k))).
  destruct (Math_min_lengths
              (map (@length codeunit)
                   (filter_not_null (map String_match_leading_ws lines))))
    as [[Hnil ->]|(m & -> & Hin & Hmin)].
  - exists O. split.
    + f_equal. apply map_ext. intros l. apply (String_slice_from l 0).
    + left. split; [|reflexivity]. apply Forall_forall. intros l Hl.
      destruct (leading_whitespace l) as [|c w] eqn:E; [reflexivity|exfalso].
      assert (H : In (length (c :: w))
                     (map (@length codeunit)
                          (filter_not_null (map String_match_leading_ws lines)))).
      { apply in_match_lengths. exists l. rewrite E. repeat split; auto. discriminate. }
      rewrite Hnil in H. exact H.
  - exists m. split.
    + f_equal. apply map_ext. intros l. apply String_slice_from.
    + right. split.
      * now apply in_match_lengths.
      * intros l Hl Hne. apply Hmin. apply in_match_lengths. exists l. auto.
Qed.

Lemma deindent_fixed (s : jsstring) :
  Forall (fun l => leading_whitespace l = []) (split LF s) -> deindent s = s.
Proof.
  intros Hno. destruct (deindent_strip s) as (k & Heq & [[_ ->]|[(l & Hin & Hne & _) _]]).
  - rewrite Heq. rewrite (map_ext (skipn 0) (fun l => l)) by reflexivity.
    rewrite map_id. apply join_split.
  - rewrite Forall_forall in Hno. specialize (Hno l Hin). congruence.
Qed.

Lemma split_deindent (s : jsstring) :
  exists k, split LF (deindent s) = map (skipn k) (split LF s)
    /\ ((Forall (fun l => leading_whitespace l = []) (split LF s) /\ k = O)
        \/ ((exists l, In l (split LF s) /\ leading_whitespace l <> []
                       /\ length (leading_whitespace l) = k)
            /\ forall l, In l (split LF s) -> leading_whitespace l <> [] ->
                         (k <= length (leading_whitespace l))%nat)).
Proof.
  destruct (deindent_strip s) as (k & Heq & Hk). exists k. split; [|exact Hk].
  rewrite Heq. apply split_join.
  - pose proof (split_not_nil LF s). destruct (split LF s); [congruence|discriminate].
  - apply Forall_forall. intros l Hl. apply in_map_iff in Hl.
    destruct Hl as (l0 & <- & Hl0). apply skipn_no_sep.
    pose proof (split_no_sep LF s) as Hs. rewrite Forall_forall in Hs. now apply Hs.
Qed.

Lemma leading_whitespace_length (l : jsstring) :
  (length (leading_whitespace l) <= length l)%nat.
Proof.
  induction l as [|c r IH]; simpl; [lia|].
  destruct (isWhiteSpace c); simpl; lia.
Qed.

Lemma deindent_fixed_inv (s : jsstring) :
  deindent s = s -> Forall (fun l => leading_whitespace l = []) (split LF s).
Proof.
  intros Hfix.
  destruct (split_deindent s) as (k & Heq & [[Hno _]|[(l & Hin & Hne & Hlen) _]]);
    [exact Hno|exfalso].
  rewrite Hfix in Heq.
  assert (Hl : skipn k l = l).
  { clear - Heq Hin. induction (split LF s) as [|x r IH]; [destruct Hin|].
    simpl in Heq. injection Heq as Hx Hr. destruct Hin as [<-|Hin]; auto. }
  assert (Hk : (k <> 0)%nat).
  { rewrite <- Hlen. destruct (leading_whitespace l); [congruence|discriminate]. }
  pose proof (leading_whitespace_length l) as Hle.
  apply (f_equal (@length codeunit)) in Hl. rewrite length_skipn in Hl. lia.
Qed.

(** ** The dispatcher *)

Ltac eval_names :=
  repeat match goal with
    | |- context [jsstring_eqb ?a ?b] =>
        let v := eval vm_compute in (jsstring_eqb a b) in
        change (jsstring_eqb a b) with v
    end;
  cbv beta iota delta [orb].

Lemma try_outputValue_invariant (this : ToolsApp) (e : completion jsstring) :
  _inputError this = false ->
  _inputError (try_outputValue this e) = false
  \/ (_inputError (try_outputValue this e) = true
      /\ _outputValue (try_outputValue this e) = []).
Proof.
  intros H. destruct e; simpl; [left; exact H|right; split; reflexivity].
Qed.

(** C2 as stated fails: a set error flag is cleared. *)
Lemma dispatch_empty_clears_error_C2_counterexample :
  _inputChange integerPlatform [] (str "x")
               {| _outputValue := []; _inputError := true |}
  <> Normal {| _outputValue := []; _inputError := true |}.
Proof. vm_compute. discriminate. Qed.

(** C2, amended: with the empty function name the handler returns normally,
    leaves the output value as it was and clears the error flag, whatever
    the input; the element is unchanged when the flag was not set. *)
Theorem dispatch_empty_C2 (P : Platform) (functionInput : jsstring) (this : ToolsApp) :
  _inputChange P [] functionInput this
  = Normal {| _outputValue := _outputValue this; _inputError := false |}.
Proof. reflexivity. Qed.

Lemma try_outputValue_stateless (this other : ToolsApp) (e : completion jsstring) :
  _inputError this = _inputError other ->
  try_outputValue this e = try_outputValue other e.
Proof.
  intros H. destruct e; unfold try_outputValue, set_outputValue; simpl;
    [now rewrite H|reflexivity].
Qed.

Lemma indentations_indented_lines (n : nat) :
  length (indentations (indented_lines n)) = n.
Proof.
  unfold indentations, indented_lines.
  destruct n as [|n]; [reflexivity|].
  rewrite split_join.
  - induction (S n) as [|k IH]; [reflexivity|].
    cbn [repeat map]. change (String_match_leading_ws (str " a")) with (Some [32%N]).
    cbn [filter_not_null length]. now rewrite IH.
  - discriminate.
  - apply Forall_forall. intros line Hin. apply repeat_spec in Hin. subst line.
    intros [H|[H|[]]]; discriminate H.
Qed.

Lemma deindent_case (P : Platform) (functionInput : jsstring) (this : ToolsApp) :
  _inputChange P (str "deindent") functionInput this
  = if max_arguments P <? length (indentations functionInput) then Throw RangeError
    else Normal {| _outputValue := deindent functionInput; _inputError := false |}.
Proof.
  unfold _inputChange, spread_arguments. eval_names.
  destruct (max_arguments P <? length (indentations functionInput)); reflexivity.
Qed.

(** C5 at a failing input: [deindent] is one of the supported names, and on
    an input with one more indented line than the engine accepts arguments
    in a call, [Math.min(...)] throws a RangeError that nothing catches: the
    handler's promise is rejected, for every prior state.  The same holds for
    every input with more indented lines than that bound. *)
Theorem dispatch_deindent_rejects_C5 (P : Platform) (this : ToolsApp) :
  In (str "deindent") supported
  /\ _inputChange P (str "deindent") (indented_lines (S (max_arguments P))) this
     = Throw RangeError
  /\ forall functionInput,
      max_arguments P < length (indentations functionInput) ->
      _inputChange P (str "deindent") functionInput this = Throw RangeError.
Proof.
  assert (H : forall functionInput,
             max_arguments P < length (indentations functionInput) ->
             _inputChange P (str "deindent") functionInput this = Throw RangeError).
  { intros functionInput Hlt. rewrite deindent_case.
    apply Nat.ltb_lt in Hlt. now rewrite Hlt. }
  split; [cbn; tauto|]. split; [|exact H].
  apply H. rewrite indentations_indented_lines. apply Nat.lt_succ_diag_r.
Qed.

(** C3 as stated fails: the second pass strips the remaining indentation of
    the deeper line and two characters of the line that has none left. *)
Lemma deindent_idempotent_C3_counterexample :
  deindent (deindent (str "  a" ++ LF :: str "    c"))
  <> deindent (str "  a" ++ LF :: str "    c").
Proof. vm_compute. discriminate. Qed.

(** C3, amended: a second pass changes nothing exactly when no line of the
    first pass's output starts with a white-space character. *)
Theorem deindent_twice_C3 (s : jsstring) :
  deindent (deindent s) = deindent s
  <-> Forall (fun line => leading_whitespace line = []) (split LF (deindent s)).
Proof.
  split; [apply deindent_fixed_inv|apply deindent_fixed].
Qed.

(** C6: [deindent] splits on newline, removes the same number [k] of leading
    code units from every line and joins with newline; [k] is the least
    length of a leading white-space run among the lines that start with
    white space; without such a line nothing is removed and the output is
    the input. *)
Theorem deindent_minimum_C6 (s : jsstring) :
  exists k,
    deindent s = join [LF] (map (skipn k) (split LF s))
    /\ (((forall line, In line (split LF s) -> leading_whitespace line = [])
         /\ k = O /\ deindent s = s)
        \/ ((exists line, In line (split LF s) /\ leading_whitespace line <> []
                          /\ length (leading_whitespace line) = k)
            /\ forall line, In line (split LF s) -> leading_whitespace line <> [] ->
                            (k <= length (leading_whitespace line))%nat)).
Proof.
  destruct (deindent_strip s) as (k & Heq & [[Hno Hk]|Hmin]); exists k;
    (split; [exact Heq|]).
  - left. split; [now apply Forall_forall|]. split; [exact Hk|].
    now apply deindent_fixed.
  - right. exact Hmin.
Qed.

(** C10: the output of [deindent] has as many lines as its input. *)
Theorem deindent_line_count_C10 (s : jsstring) :
  length (split LF (deindent s)) = length (split LF s).
Proof.
  destruct (split_deindent s) as (k & Heq & _).
  rewrite Heq. apply length_map.
Qed.

(** ** Base64 *)

Lemma list_ind3 (A : Type) (Q : list A -> Prop) :
  Q [] -> (forall a, Q [a]) -> (forall a b, Q [a; b]) ->
  (forall a b c r, Q r -> Q (a :: b :: c :: r)) ->
  forall l, Q l.
Proof.
  intros H0 H1 H2 H3 l.
  enough (H : Q l /\ (forall a, Q (a :: l)) /\ (forall a b, Q (a :: b :: l)))
    by apply H.
  induction l as [|x r (IH0 & IH1 & IH2)]; [now repeat split|].
  split; [apply IH1|]. split; [intros a; apply IH2|]. intros a b. now apply H3.
Qed.

Lemma below_in_seq (n : nat) (i : N) :
  (i < N.of_nat n)%N -> In i (map N.of_nat (seq 0 n)).
Proof.
  intros H. apply in_map_iff. exists (N.to_nat i). split; [lia|].
  apply in_seq. lia.
Qed.

Lemma b64_index_char (i : N) : (i < 64)%N -> b64_index (b64_char i) = Some i.
Proof.
  intros H.
  assert (Hall : forallb (fun j => match b64_index (b64_char j) with
                                   | Some k => (k =? j)%N
                                   | None => false
                                   end) (map N.of_nat (seq 0 64)) = true)
    by (vm_compute; reflexivity).
  rewrite forallb_forall in Hall. specialize (Hall i (below_in_seq 64 i H)).
  destruct (b64_index (b64_char i)); [|discriminate].
  apply N.eqb_eq in Hall. now subst.
Qed.

Lemma b64_char_cases (i : N) :
  let c := b64_char i in
  ((65 <= c <= 90) \/ (97 <= c <= 122) \/ (48 <= c <= 57) \/ c = 43 \/ c = 47)%N.
Proof.
  unfold b64_char.
  destruct (N.ltb_spec i 26); [lia|].
  destruct (N.ltb_spec i 52); [lia|].
  destruct (N.ltb_spec i 62); [lia|].
  destruct (N.eqb_spec i 62); lia.
Qed.

Lemma b64_char_not_ws (i : N) : isASCIIWhitespace (b64_char i) = false.
Proof.
  pose proof (b64_char_cases i) as H. cbv zeta in H. unfold isASCIIWhitespace.
  repeat match goal with
         | |- context [(?a =? ?b)%N] => destruct (N.eqb_spec a b); [lia|]
         end.
  reflexivity.
Qed.

Lemma b64_char_not_pad (i : N) : (b64_char i =? PAD)%N = false.
Proof.
  pose proof (b64_char_cases i) as H. cbv zeta in H. unfold PAD.
  apply N.eqb_neq. lia.
Qed.

Lemma filter_b64_chars (idx : list N) :
  filter (fun c => negb (isASCIIWhitespace c)) (map b64_char idx) = map b64_char idx.
Proof.
  induction idx as [|i r IH]; simpl; [reflexivity|].
  now rewrite b64_char_not_ws, IH.
Qed.

Lemma b64_indices_chars (idx : list N) :
  Forall (fun i => (i < 64)%N) idx -> b64_indices (map b64_char idx) = Some idx.
Proof.
  induction 1 as [|i r Hi Hr IH]; simpl; [reflexivity|].
  now rewrite b64_index_char, IH.
Qed.

Lemma sextets_bound (bytes : list N) :
  Forall is_byte bytes -> Forall (fun i => (i < 64)%N) (sextets bytes).
Proof.
  unfold is_byte.
  induction bytes as [|a|a b|a b c r IH] using list_ind3; intros H; simpl.
  - constructor.
  - inversion H; subst. repeat constructor; zify; Z.to_euclidean_division_equations; lia.
  - inversion H as [|? ? Ha H']; subst. inversion H'; subst.
    repeat constructor; zify; Z.to_euclidean_division_equations; lia.
  - inversion H as [|? ? Ha H']; subst. inversion H' as [|? ? Hb H'']; subst.
    inversion H'' as [|? ? Hc Hr]; subst.
    repeat (constructor; [zify; Z.to_euclidean_division_equations; lia|]).
    now apply IH.
Qed.

Ltac euclid := zify; Z.to_euclidean_division_equations; lia.

Lemma padding_step (a b c : N) (r : list N) : padding (a :: b :: c :: r) = padding r.
Proof.
  unfold padding. simpl length.
  replace (S (S (S (length r))) mod 3)%nat with (length r mod 3)%nat; [reflexivity|].
  euclid.
Qed.

Lemma encode_shape (bytes : list N) :
  (length (sextets bytes) + length (padding bytes)) mod 4 = 0
  /\ (padding bytes = [] \/ padding bytes = [PAD] \/ padding bytes = [PAD; PAD])
  /\ (padding bytes = [PAD] -> sextets bytes <> [])
  /\ length (sextets bytes) mod 4 <> 1.
Proof.
  induction bytes as [|a|a b|a b c r IH] using list_ind3.
  - repeat split; auto; try discriminate.
  - repeat split; auto; try discriminate.
  - repeat split; auto; try discriminate.
  - rewrite padding_step. destruct IH as (H1 & H2 & H3 & H4).
    cbn [sextets length]. repeat split.
    + revert H1. generalize (length (sextets r)) (length (padding r)). intros; euclid.
    + exact H2.
    + discriminate.
    + revert H4. generalize (length (sextets r)). intros; euclid.
Qed.

Lemma remove_padding_chars (idx : list N) (pad : jsstring) :
  (length idx + length pad) mod 4 = 0 ->
  pad = [] \/ pad = [PAD] \/ pad = [PAD; PAD] ->
  (pad = [PAD] -> idx <> []) ->
  remove_padding (map b64_char idx ++ pad) = map b64_char idx.
Proof.
  intros Hlen Hpad Hne. unfold remove_padding.
  rewrite length_app, length_map, Hlen. cbn [Nat.eqb].
  rewrite rev_app_distr, <- map_rev.
  destruct Hpad as [->|[->| ->]]; cbn [rev app].
  - rewrite app_nil_r.
    destruct (rev idx) as [|i [|j r]]; cbn [map]; [reflexivity| |];
      now rewrite b64_char_not_pad.
  - destruct (rev idx) as [|j r] eqn:E; cbn [map].
    + exfalso. apply (Hne eq_refl). apply (f_equal (@rev N)) in E.
      now rewrite rev_involutive in E.
    + rewrite N.eqb_refl, b64_char_not_pad.
      change (rev (map b64_char r) ++ [b64_char j]) with (rev (map b64_char (j :: r))).
      now rewrite <- E, map_rev, rev_involutive.
  - rewrite !N.eqb_refl. now rewrite map_rev, rev_involutive.
Qed.

Lemma b64_quantum (out : list N) (s1 s2 s3 s4 : N) (rest : list N) :
  fold_left b64_step (s1 :: s2 :: s3 :: s4 :: rest) (b64_start out)
  = fold_left b64_step rest
      (b64_start (out ++ [(((s1 * 64 + s2) * 64 + s3) * 64 + s4) / 65536;
                          (((s1 * 64 + s2) * 64 + s3) * 64 + s4) / 256 mod 256;
                          (((s1 * 64 + s2) * 64 + s3) * 64 + s4) mod 256]%N)).
Proof. reflexivity. Qed.

Lemma b64_decode_sextets (bytes : list N) :
  Forall is_byte bytes ->
  forall out, b64_flush (fold_left b64_step (sextets bytes) (b64_start out))
              = out ++ bytes.
Proof.
  unfold is_byte.
  induction bytes as [|a|a b|a b c r IH] using list_ind3; intros H out.
  - cbn. now rewrite app_nil_r.
  - inversion H as [|? ? Ha _]; subst. cbn. do 2 f_equal. euclid.
  - inversion H as [|? ? Ha H']; subst. inversion H' as [|? ? Hb _]; subst.
    cbn. f_equal. f_equal; [|f_equal]; euclid.
  - inversion H as [|? ? Ha H']; subst. inversion H' as [|? ? Hb H'']; subst.
    inversion H'' as [|? ? Hc Hr]; subst.
    cbn [sextets]. rewrite b64_quantum, (IH Hr), <- app_assoc. f_equal.
    cbn [app]. f_equal; [|f_equal; [|f_equal]]; euclid.
Qed.

Lemma padding_not_ws (bytes : list N) :
  filter (fun c => negb (isASCIIWhitespace c)) (padding bytes) = padding bytes.
Proof. unfold padding. destruct (length bytes mod 3) as [|[|[|n]]]; reflexivity. Qed.

Lemma forgiving_base64_roundtrip (bytes : list N) :
  Forall is_byte bytes ->
  forgiving_base64_decode (forgiving_base64_encode bytes) = Some bytes.
Proof.
  intros H. unfold forgiving_base64_decode, forgiving_base64_encode.
  destruct (encode_shape bytes) as (H1 & H2 & H3 & H4).
  rewrite filter_app, filter_b64_chars, padding_not_ws.
  rewrite remove_padding_chars by auto.
  rewrite length_map.
  destruct (Nat.eqb_spec (length (sextets bytes) mod 4) 1); [contradiction|].
  rewrite b64_indices_chars by now apply sextets_bound.
  f_equal. apply (b64_decode_sextets bytes H []).
Qed.

Lemma btoa_bytes (s : jsstring) :
  Forall is_byte s -> btoa s = Normal (forgiving_base64_encode s).
Proof.
  intros H. unfold btoa.
  replace (existsb (fun c => (255 <? c)%N) s) with false; [reflexivity|].
  symmetry. induction H as [|c r Hc Hr IH]; [reflexivity|]. simpl.
  rewrite <- IH. unfold is_byte in Hc. destruct (N.ltb_spec 255 c); [lia|reflexivity].
Qed.

(** C7: for a string of code units up to 255, encoding and then decoding the
    output gives the string back, and neither step sets the error flag. *)
Theorem base64_roundtrip_C7 (P : Platform) (s : jsstring) (this : ToolsApp) :
  Forall (fun c => (c <= 255)%N) s ->
  exists encoded decoded,
    _inputChange P (str "encode-base64") s this = Normal encoded
    /\ _inputError encoded = false
    /\ _inputChange P (str "decode-base64") (_outputValue encoded) encoded
       = Normal decoded
    /\ _inputError decoded = false
    /\ _outputValue decoded = s.
Proof.
  intros H. unfold _inputChange. eval_names.
  rewrite (btoa_bytes s H).
  eexists. eexists. split; [reflexivity|]. split; [reflexivity|].
  cbn [try_outputValue set_outputValue set_inputError _outputValue _inputError].
  unfold atob. rewrite (forgiving_base64_roundtrip s H).
  repeat split.
Qed.

Lemma base64_roundtrip_C7_witness :
  Forall (fun c => (c <= 255)%N) (str "hello, world")
  /\ exists encoded decoded,
      _inputChange integerPlatform (str "encode-base64") (str "hello, world")
                   {| _outputValue := []; _inputError := true |} = Normal encoded
      /\ _inputError encoded = false
      /\ _inputChange integerPlatform (str "decode-base64") (_outputValue encoded) encoded
         = Normal decoded
      /\ _inputError decoded = false
      /\ _outputValue decoded = str "hello, world".
Proof.
  assert (H : Forall (fun c => (c <= 255)%N) (str "hello, world"))
    by (repeat constructor; discriminate).
  split; [exact H|]. apply base64_roundtrip_C7. exact H.
Defined.

(** ** JSON: quoting and parsing strings *)

Lemma hexvalue_hexdigit (d : N) : (d < 16)%N -> hexvalue (hexdigit d) = Some d.
Proof.
  intros H.
  assert (Hall : forallb (fun j => match hexvalue (hexdigit j) with
                                   | Some k => (k =? j)%N
                                   | None => false
                                   end) (map N.of_nat (seq 0 16)) = true)
    by (vm_compute; reflexivity).
  rewrite forallb_forall in Hall. specialize (Hall d (below_in_seq 16 d H)).
  destruct (hexvalue (hexdigit d)); [|discriminate].
  apply N.eqb_eq in Hall. now subst.
Qed.

Lemma cons_result_parse_literal (c : codeunit) (t : jsstring) :
  c <> QUOTE -> c <> BACKSLASH -> (32 <= c)%N ->
  parse_string_chars (c :: t) = cons_result c (parse_string_chars t).
Proof.
  intros Hq Hb Hc. cbn [parse_string_chars].
  destruct (N.eqb_spec c QUOTE); [contradiction|].
  destruct (N.eqb_spec c BACKSLASH); [contradiction|].
  destruct (N.ltb_spec c 32); [lia|reflexivity].
Qed.

Lemma parse_UnicodeEscape (c : codeunit) (t : jsstring) :
  (c < 65536)%N ->
  parse_string_chars (UnicodeEscape c ++ t) = cons_result c (parse_string_chars t).
Proof.
  intros Hc. unfold UnicodeEscape. cbn [app parse_string_chars].
  change (BACKSLASH =? QUOTE)%N with false.
  change (BACKSLASH =? BACKSLASH)%N with true.
  change (117 =? 117)%N with true. cbv iota.
  unfold hex4. rewrite !hexvalue_hexdigit by euclid.
  replace (c / 4096 * 4096 + c / 256 mod 16 * 256 + c / 16 mod 16 * 16 + c mod 16)%N
    with c by euclid.
  reflexivity.
Qed.

Lemma parse_quote_codepoint (c : codeunit) (t : jsstring) :
  parse_string_chars (quote_codepoint c ++ t) = cons_result c (parse_string_chars t).
Proof.
  unfold quote_codepoint.
  repeat match goal with
         | |- context [if (c =? ?k)%N then _ else _] =>
             destruct (N.eqb_spec c k); [subst c; reflexivity|]
         end.
  destruct (N.ltb_spec c 32).
  - apply parse_UnicodeEscape. lia.
  - now apply cons_result_parse_literal.
Qed.

Lemma parse_quote_chars (s rest : jsstring) :
  parse_string_chars (quote_chars s ++ QUOTE :: rest) = Some (s, rest).
Proof.
  remember (length s) as n eqn:Hn.
  assert (Hle : length s <= n) by lia. clear Hn. revert s Hle.
  induction n as [|n IH]; intros s Hle.
  - destruct s; [reflexivity|simpl in Hle; lia].
  - destruct s as [|c r]; [reflexivity|]. simpl in Hle.
    cbn [quote_chars].
    destruct (isLeadingSurrogate c) eqn:Hlead.
    + unfold isLeadingSurrogate in Hlead. apply andb_prop in Hlead.
      destruct Hlead as [Hlo Hhi]. apply N.leb_le in Hlo, Hhi.
      destruct r as [|d r'].
      * rewrite parse_UnicodeEscape by lia. reflexivity.
      * destruct (isTrailingSurrogate d) eqn:Htrail.
        -- unfold isTrailingSurrogate in Htrail. apply andb_prop in Htrail.
           destruct Htrail as [Hlo' Hhi']. apply N.leb_le in Hlo', Hhi'.
           cbn [app].
           rewrite cons_result_parse_literal by (unfold QUOTE, BACKSLASH; lia).
           rewrite cons_result_parse_literal by (unfold QUOTE, BACKSLASH; lia).
           rewrite IH by (simpl in Hle; lia). reflexivity.
        -- rewrite <- app_assoc, parse_UnicodeEscape by lia.
           rewrite IH by lia. reflexivity.
    + destruct (isTrailingSurrogate c) eqn:Htrail.
      * unfold isTrailingSurrogate in Htrail. apply andb_prop in Htrail.
        destruct Htrail as [Hlo' Hhi']. apply N.leb_le in Hlo', Hhi'.
        rewrite <- app_assoc, parse_UnicodeEscape by lia.
        rewrite IH by lia. reflexivity.
      * rewrite <- app_assoc, parse_quote_codepoint.
        rewrite IH by lia. reflexivity.
Qed.

(** ** JSON: an array of strings *)

Lemma parse_value_string (P : Platform) (f : nat) (s rest : jsstring) :
  parse_value P (S f) (QuoteJSONString s ++ rest) = Some (JString s, rest).
Proof.
  unfold QuoteJSONString. cbn [app parse_value skip_ws].
  change (isJSONWhitespace QUOTE) with false. cbv iota.
  change (QUOTE =? 123)%N with false. change (QUOTE =? 91)%N with false.
  change (QUOTE =? QUOTE)%N with true. cbv iota.
  rewrite <- app_assoc. cbn [app]. now rewrite parse_quote_chars.
Qed.

Lemma parse_elements_S (P : Platform) (f : nat) (s : jsstring) :
  parse_elements P (S f) s
  = match parse_value P f s with
    | None => None
    | Some (v, r) =>
        match skip_ws r with
        | c :: r' =>
            if (c =? 44)%N then
              match parse_elements P f r' with
              | Some (l, rest) => Some (v :: l, rest)
              | None => None
              end
            else if (c =? 93)%N then Some ([v], r')
            else None
        | [] => None
        end
    end.
Proof. reflexivity. Qed.

Lemma parse_elements_strings (P : Platform) (lines : list jsstring) :
  forall (x : jsstring) (fuel : nat) (rest : jsstring),
    length lines + 1 < fuel ->
    parse_elements P fuel
      (join (str ",") (map QuoteJSONString (x :: lines)) ++ str "]" ++ rest)
    = Some (map JString (x :: lines), rest).
Proof.
  induction lines as [|y r IH]; intros x fuel rest Hfuel;
    (destruct fuel as [|[|f]]; [simpl in Hfuel; lia..|]);
    rewrite parse_elements_S.
  - cbn [map join]. rewrite parse_value_string. reflexivity.
  - change (map QuoteJSONString (x :: y :: r))
      with (QuoteJSONString x :: map QuoteJSONString (y :: r)).
    change (map QuoteJSONString (y :: r))
      with (QuoteJSONString y :: map QuoteJSONString r).
    rewrite join_cons.
    change (QuoteJSONString y :: map QuoteJSONString r)
      with (map QuoteJSONString (y :: r)).
    rewrite <- !app_assoc. rewrite parse_value_string.
    change (str "," ++ join (str ",") (map QuoteJSONString (y :: r)) ++ str "]" ++ rest)
      with (44%N :: join (str ",") (map QuoteJSONString (y :: r)) ++ str "]" ++ rest).
    cbn [skip_ws]. change (isJSONWhitespace 44%N) with false. cbv iota.
    change (44 =? 44)%N with true. cbv iota.
    rewrite IH by (simpl in Hfuel; lia). reflexivity.
Qed.

Lemma QuoteJSONString_length (s : jsstring) : 2 <= length (QuoteJSONString s).
Proof.
  unfold QuoteJSONString. simpl. rewrite length_app. simpl. lia.
Qed.

Lemma join_quoted_length (lines : list jsstring) :
  length lines <= length (join (str ",") (map QuoteJSONString lines)).
Proof.
  induction lines as [|x [|y r] IH]; [simpl; lia| |].
  - pose proof (QuoteJSONString_length x). simpl in *. lia.
  - change (map QuoteJSONString (x :: y :: r))
      with (QuoteJSONString x :: map QuoteJSONString (y :: r)).
    change (QuoteJSONString x :: map QuoteJSONString (y :: r))
      with (QuoteJSONString x :: QuoteJSONString y :: map QuoteJSONString r).
    rewrite join_cons, !length_app.
    pose proof (QuoteJSONString_length x).
    change (QuoteJSONString y :: map QuoteJSONString r)
      with (map QuoteJSONString (y :: r)).
    simpl length in *. lia.
Qed.

Lemma parse_value_array (P : Platform) (f : nat) (t : jsstring) :
  parse_value P (S f) (91%N :: QUOTE :: t)
  = match parse_elements P f (QUOTE :: t) with
    | Some (l, rest) => Some (JArray l, rest)
    | None => None
    end.
Proof. reflexivity. Qed.

Lemma join_quoted_head (x : jsstring) (r : list jsstring) :
  exists t, join (str ",") (map QuoteJSONString (x :: r)) = QUOTE :: t.
Proof.
  cbn [map]. destruct (map QuoteJSONString r); cbn; eexists; reflexivity.
Qed.

Lemma print_strings (P : Platform) (lines : list jsstring) :
  print (JArray (map (@JString P) lines))
  = 91%N :: join (str ",") (map QuoteJSONString lines) ++ [93%N].
Proof. cbn [print]. rewrite map_map. reflexivity. Qed.

Lemma JSON_parse_strings (P : Platform) (lines : list jsstring) :
  JSON_parse P (print (JArray (map (@JString P) lines)))
  = Normal (JArray (map (@JString P) lines)).
Proof.
  unfold JSON_parse. destruct lines as [|x r]; [reflexivity|].
  rewrite print_strings.
  pose proof (join_quoted_length (x :: r)) as Hlen.
  pose proof (parse_elements_strings P r x) as Hp.
  destruct (join_quoted_head x r) as (t & Ht). rewrite Ht in *.
  match goal with
  | |- context [parse_value P ?n _] => destruct n as [|f] eqn:Hfuel; [lia|]
  end.
  assert (Hf : length r + 1 < f).
  { simpl length in *. rewrite length_app in Hfuel. simpl length in *. lia. }
  cbn [app]. rewrite parse_value_array.
  specialize (Hp f [] Hf). cbn [app str] in Hp.
  change (N_of_ascii "]"%char) with 93%N in Hp.
  unfold jsstring, codeunit in *. rewrite Hp. reflexivity.
Qed.

Lemma Array_join_with_cons (P : Platform) (toStr : json P -> completion jsstring)
      (sep : jsstring) (x y : json P) (r : list (json P)) :
  Array_join_with toStr sep (x :: y :: r)
  = (e <- match x with JNull => Normal [] | _ => toStr x end;;
     rest <- Array_join_with toStr sep (y :: r);;
     Normal (e ++ sep ++ rest)).
Proof. reflexivity. Qed.

Lemma parsed_join_strings (P : Platform) (sep : jsstring) (lines : list jsstring) :
  parsed_join (JArray (map (@JString P) lines)) sep = Normal (join sep lines).
Proof.
  unfold parsed_join.
  induction lines as [|x [|y r] IH]; [reflexivity..|].
  change (map JString (x :: y :: r))
    with (@JString P x :: JString y :: map JString r).
  rewrite Array_join_with_cons.
  change (@JString P y :: map JString r) with (map (@JString P) (y :: r)).
  rewrite IH. reflexivity.
Qed.

(** C8: for every string, turning its lines into a JSON array and the array
    back into lines gives the string back, and neither step sets the error
    flag. *)
Theorem lines_json_roundtrip_C8 (P : Platform) (s : jsstring) (this : ToolsApp) :
  exists array lines,
    _inputChange P (str "lines-to-json-array") s this = Normal array
    /\ _inputError array = false
    /\ _inputChange P (str "json-array-to-lines") (_outputValue array) array
       = Normal lines
    /\ _inputError lines = false
    /\ _outputValue lines = s.
Proof.
  unfold _inputChange. eval_names.
  eexists. eexists. split; [reflexivity|]. split; [reflexivity|].
  cbn [try_outputValue set_outputValue set_inputError _outputValue _inputError].
  rewrite JSON_parse_strings. cbn [bind]. rewrite parsed_join_strings.
  cbn [try_outputValue set_outputValue set_inputError _outputValue _inputError].
  rewrite join_split. repeat split.
Qed.

(** ** JSON: the fuel of the parser *)

(** Case analysis on the scrutinee of a [match] in the goal, or else in a
    hypothesis. *)
Ltac case_scrutinee :=
  first
    [ match goal with
      | |- context [match ?x with _ => _ end] => destruct x eqn:?
      end
    | match goal with
      | H : context [match ?x with _ => _ end] |- _ => destruct x eqn:?
      end ].

Lemma skip_ws_length (s : jsstring) : length (skip_ws s) <= length s.
Proof.
  induction s as [|c r IH]; simpl; [lia|].
  destruct (isJSONWhitespace c); simpl; lia.
Qed.

Lemma skip_ws_cons_length (s : jsstring) (c : codeunit) (r : jsstring) :
  skip_ws s = c :: r -> length r < length s.
Proof.
  intros H. pose proof (skip_ws_length s) as Hl. rewrite H in Hl. simpl in Hl. lia.
Qed.

Lemma cons_result_length (c : codeunit) (x : option (jsstring * jsstring))
      (v r : jsstring) (n : nat) :
  (forall v' r', x = Some (v', r') -> length r' < n) ->
  cons_result c x = Some (v, r) -> length r < n.
Proof.
  intros H. destruct x as [[v' r']|]; simpl; [|discriminate].
  intros E. injection E as _ <-. now apply (H v').
Qed.

Lemma parse_string_chars_length (s v r : jsstring) :
  parse_string_chars s = Some (v, r) -> length r < length s.
Proof.
  remember (length s) as n eqn:Hn.
  assert (Hle : length s <= n) by lia.
  assert (Hgoal : parse_string_chars s = Some (v, r) -> length r < length s);
    [|rewrite Hn; exact Hgoal].
  clear Hn. revert s v r Hle.
  induction n as [|n IH]; intros s v r Hle; destruct s as [|c t];
    simpl in Hle; try discriminate; try lia.
  cbn [parse_string_chars].
  destruct (c =? QUOTE)%N.
  { intros E. injection E as _ <-. simpl. lia. }
  destruct (c =? BACKSLASH)%N.
  - destruct t as [|e r1]; [discriminate|].
    destruct (e =? 117)%N.
    + destruct r1 as [|h1 [|h2 [|h3 [|h4 r2]]]]; try discriminate.
      destruct (hex4 h1 h2 h3 h4); [|discriminate].
      intros E. apply cons_result_length with (n := length r2) in E.
      * simpl. lia.
      * intros v' r' E'. apply IH in E'; [exact E'|simpl in Hle; lia].
    + destruct (unescape e); [|discriminate].
      intros E. apply cons_result_length with (n := length r1) in E.
      * simpl. lia.
      * intros v' r' E'. apply IH in E'; [exact E'|simpl in Hle; lia].
  - destruct (c <? 32)%N; [discriminate|].
    intros E. apply cons_result_length with (n := length t) in E.
    + simpl. lia.
    + intros v' r' E'. apply IH in E'; [exact E'|lia].
Qed.

Lemma strip_prefix_length (p s r : jsstring) :
  strip_prefix p s = Some r -> length s = length p + length r.
Proof.
  revert s. induction p as [|a p IH]; intros s; simpl.
  - intros E. injection E as <-. reflexivity.
  - destruct s as [|b s']; [discriminate|].
    destruct (a =? b)%N; [|discriminate]. intros E. apply IH in E. simpl. lia.
Qed.

Lemma span_digits_length (s ds r : jsstring) :
  span_digits s = (ds, r) -> length s = length ds + length r.
Proof.
  revert ds r. induction s as [|c t IH]; intros ds r; simpl.
  - intros E. injection E as <- <-. reflexivity.
  - destruct (isDigit c).
    + destruct (span_digits t) as [ds' r'] eqn:E'. intros E. injection E as <- <-.
      specialize (IH ds' r' eq_refl). simpl. lia.
    + intros E. injection E as <- <-. reflexivity.
Qed.

Lemma scan_number_length (s lit r : jsstring) :
  scan_number s = Some (lit, r) -> length r < length s.
Proof.
  unfold scan_number. intros E.
  repeat case_scrutinee; try discriminate;
    repeat match goal with
           | H : Some _ = Some _ |- _ => injection H as ? ?
           | H : (_, _) = (_, _) |- _ => injection H as ? ?
           | H : span_digits _ = (_, _) |- _ => apply span_digits_length in H
           end;
    subst; simpl in *; lia.
Qed.

Section ParserFuel.
Variable P : Platform.

Lemma parse_value_S (f : nat) (s : jsstring) :
  parse_value P (S f) s
  = match skip_ws s with
    | [] => None
    | c :: r =>
        if (c =? 123)%N then
          match skip_ws r with
          | d :: r' =>
              if (d =? 125)%N then Some (JObject [], r')
              else
                match parse_members P f (d :: r') with
                | Some (m, rest) => Some (JObject m, rest)
                | None => None
                end
          | [] => None
          end
        else if (c =? 91)%N then
          match skip_ws r with
          | d :: r' =>
              if (d =? 93)%N then Some (JArray [], r')
              else
                match parse_elements P f (d :: r') with
                | Some (l, rest) => Some (JArray l, rest)
                | None => None
                end
          | [] => None
          end
        else if (c =? QUOTE)%N then
          match parse_string_chars r with
          | Some (v, rest) => Some (JString v, rest)
          | None => None
          end
        else
          match strip_prefix (str "true") (c :: r) with
          | Some rest => Some (JBoolean true, rest)
          | None =>
          match strip_prefix (str "false") (c :: r) with
          | Some rest => Some (JBoolean false, rest)
          | None =>
          match strip_prefix (str "null") (c :: r) with
          | Some rest => Some (JNull, rest)
          | None =>
          match scan_number (c :: r) with
          | Some (lit, rest) => Some (JNumber (StringToNumber P lit), rest)
          | None => None
          end end end end
    end.
Proof. reflexivity. Qed.

Lemma parse_members_S (f : nat) (s : jsstring) :
  parse_members P (S f) s
  = match skip_ws s with
    | q :: r0 =>
        if (q =? QUOTE)%N then
          match parse_string_chars r0 with
          | None => None
          | Some (k, r1) =>
              match skip_ws r1 with
              | c :: r2 =>
                  if (c =? 58)%N then
                    match parse_value P f r2 with
                    | None => None
                    | Some (v, r3) =>
                        match skip_ws r3 with
                        | d :: r4 =>
                            if (d =? 44)%N then
                              match parse_members P f r4 with
                              | Some (m, rest) => Some ((k, v) :: m, rest)
                              | None => None
                              end
                            else if (d =? 125)%N then Some ([(k, v)], r4)
                            else None
                        | [] => None
                        end
                    end
                  else None
              | [] => None
              end
          end
        else None
    | [] => None
    end.
Proof. reflexivity. Qed.

Ltac lengths :=
  repeat match goal with
         | H : skip_ws _ = _ :: _ |- _ => apply skip_ws_cons_length in H
         | H : parse_string_chars _ = Some _ |- _ => apply parse_string_chars_length in H
         | H : strip_prefix _ _ = Some _ |- _ => apply strip_prefix_length in H
         | H : scan_number _ = Some _ |- _ => apply scan_number_length in H
         end;
  simpl in *; try lia.

(** A successful parse consumes at least one code unit. *)
Lemma parse_consumes (f : nat) :
  (forall s v r, parse_value P f s = Some (v, r) -> length r < length s)
  /\ (forall s l r, parse_elements P f s = Some (l, r) -> length r < length s)
  /\ (forall s m r, parse_members P f s = Some (m, r) -> length r < length s).
Proof.
  induction f as [|f (IHv & IHe & IHm)]; [repeat split; discriminate|].
  split; [|split]; intros s x r.
  - rewrite parse_value_S. intros E.
    repeat case_scrutinee; try discriminate; injection E as <- <-;
      repeat match goal with
             | H : parse_members P f _ = Some _ |- _ => apply IHm in H
             | H : parse_elements P f _ = Some _ |- _ => apply IHe in H
             end; lengths.
  - rewrite parse_elements_S. intros E.
    repeat case_scrutinee; try discriminate; injection E as <- <-;
      repeat match goal with
             | H : parse_value P f _ = Some _ |- _ => apply IHv in H
             | H : parse_elements P f _ = Some _ |- _ => apply IHe in H
             end; lengths.
  - rewrite parse_members_S. intros E.
    repeat case_scrutinee; try discriminate; injection E as <- <-;
      repeat match goal with
             | H : parse_value P f _ = Some _ |- _ => apply IHv in H
             | H : parse_members P f _ = Some _ |- _ => apply IHm in H
             end; lengths.
Qed.

(** Above a bound that is linear in the length of the text the result of
    the parser does not depend on the fuel. *)
Lemma parse_fuel (f1 : nat) :
  forall f2,
    (forall s, 2 * length s + 1 <= f1 -> 2 * length s + 1 <= f2 ->
               parse_value P f1 s = parse_value P f2 s)
    /\ (forall s, 2 * length s + 2 <= f1 -> 2 * length s + 2 <= f2 ->
                  parse_elements P f1 s = parse_elements P f2 s)
    /\ (forall s, 2 * length s + 2 <= f1 -> 2 * length s + 2 <= f2 ->
                  parse_members P f1 s = parse_members P f2 s).
Proof.
  induction f1 as [|g1 IH]; intros f2; [repeat split; intros; lia|].
  destruct f2 as [|g2]; [repeat split; intros; lia|].
  destruct (IH g2) as (IHv & IHe & IHm).
  split; [|split]; intros s H1 H2.
  - rewrite !parse_value_S.
    destruct (skip_ws s) as [|c r] eqn:E1; [reflexivity|].
    destruct (c =? 123)%N.
    { destruct (skip_ws r) as [|d r'] eqn:E2; [reflexivity|].
      destruct (d =? 125)%N; [reflexivity|].
      rewrite (IHm (d :: r')); [reflexivity| |];
        pose proof (skip_ws_length r) as L; rewrite E2 in L; lengths. }
    destruct (c =? 91)%N; [|reflexivity].
    destruct (skip_ws r) as [|d r'] eqn:E2; [reflexivity|].
    destruct (d =? 93)%N; [reflexivity|].
    rewrite (IHe (d :: r')); [reflexivity| |];
      pose proof (skip_ws_length r) as L; rewrite E2 in L; lengths.
  - rewrite !parse_elements_S.
    rewrite (IHv s) by lia.
    destruct (parse_value P g2 s) as [[v r]|] eqn:E1; [|reflexivity].
    destruct (skip_ws r) as [|c r'] eqn:E2; [reflexivity|].
    destruct (c =? 44)%N; [|reflexivity].
    apply (proj1 (parse_consumes g2)) in E1.
    rewrite (IHe r'); [reflexivity| |]; lengths.
  - rewrite !parse_members_S.
    destruct (skip_ws s) as [|q r0] eqn:E0; [reflexivity|].
    destruct (q =? QUOTE)%N; [|reflexivity].
    destruct (parse_string_chars r0) as [[k r1]|] eqn:E1; [|reflexivity].
    destruct (skip_ws r1) as [|c r2] eqn:E2; [reflexivity|].
    destruct (c =? 58)%N; [|reflexivity].
    assert (L : length r2 + 3 <= length s) by lengths.
    rewrite (IHv r2) by lia.
    destruct (parse_value P g2 r2) as [[v r3]|] eqn:E3; [|reflexivity].
    destruct (skip_ws r3) as [|d r4] eqn:E4; [reflexivity|].
    destruct (d =? 44)%N; [|reflexivity].
    apply (proj1 (parse_consumes g2)) in E3.
    rewrite (IHm r4); [reflexivity| |]; lengths.
Qed.

(** More fuel than [JSON_parse] gives does not change what it returns. *)
Lemma JSON_parse_fuel (text : jsstring) (fuel : nat) :
  2 * length text + 2 <= fuel ->
  parse_value P fuel text = parse_value P (2 * length text + 2) text.
Proof.
  intros H. apply (proj1 (parse_fuel fuel (2 * length text + 2))); lia.
Qed.

End ParserFuel.

(** ** The heap *)

Section Heap.

Variable P : Platform.

Lemma lookup_lt (h : heap P) (a : addr) (o : object P) :
  lookup h a = Some o -> a < length h.
Proof.
  induction h as [|x r IH]; simpl; [discriminate|].
  destruct (Nat.eqb_spec a (length r)); [lia|]. intros H. specialize (IH H). lia.
Qed.

Lemma lookup_alloc_old (h : heap P) (x : object P) (a : addr) :
  a < length h -> lookup (x :: h) a = lookup h a.
Proof.
  intros H. simpl. destruct (Nat.eqb_spec a (length h)); [lia|reflexivity].
Qed.

Lemma lookup_alloc_new (h : heap P) (x : object P) :
  lookup (x :: h) (length h) = Some x.
Proof. simpl. now rewrite Nat.eqb_refl. Qed.

Lemma update_alloc_new (h : heap P) (x : object P) (f : object P -> object P) :
  update (x :: h) (length h) f = f x :: h.
Proof. simpl. now rewrite Nat.eqb_refl. Qed.

Lemma update_alloc_old (h : heap P) (x : object P) (a : addr) (f : object P -> object P) :
  a < length h -> update (x :: h) a f = x :: update h a f.
Proof.
  intros H. simpl. destruct (Nat.eqb_spec a (length h)); [lia|reflexivity].
Qed.

Lemma instanceof_alloc (h : heap P) (x : object P) (v : value P) (c : class) :
  instanceof h v c = true -> instanceof (x :: h) v c = true.
Proof.
  destruct v; simpl; try discriminate.
  destruct (lookup h a) as [o|] eqn:E; [|discriminate].
  apply lookup_lt in E as Hlt.
  destruct (Nat.eqb_spec a (length h)); [lia|]. trivial.
Qed.

Lemma Get_alloc (h : heap P) (x : object P) (v : value P) (c : class) (k : jsstring) :
  instanceof h v c = true -> Get (x :: h) v k = Get h v k.
Proof.
  destruct v; simpl; try discriminate.
  destruct (lookup h a) as [o|] eqn:E; [|discriminate].
  apply lookup_lt in E as Hlt. intros _.
  destruct (Nat.eqb_spec a (length h)); [lia|]. reflexivity.
Qed.

Lemma Serialize_object (f : nat) (h : heap P) (stack : list addr) (a : addr) :
  SerializeJSONProperty (S f) h stack (VObject a)
  = if existsb (Nat.eqb a) stack then Throw TypeError
    else
      match lookup h a with
      | None => Normal None
      | Some (ArrayObject elements) =>
          l <- serialize_elements (SerializeJSONProperty f h (a :: stack)) elements;;
          Normal (Some (JArray l))
      | Some (Ordinary _ props) =>
          m <- serialize_props (SerializeJSONProperty f h (a :: stack)) props;;
          Normal (Some (JObject m))
      end.
Proof. reflexivity. Qed.

End Heap.

Section Reporter.
Variable P : Platform.


Ltac members :=
  unfold member; cbn [find fst snd]; eval_names; cbn [find fst snd option_map].

Lemma lookup2_new (h : heap P) (x1 x2 : object P) :
  lookup (x2 :: x1 :: h) (S (length h)) = Some x2.
Proof. apply (lookup_alloc_new P (x1 :: h)). Qed.

Lemma lookup2_old (h : heap P) (x1 x2 : object P) :
  lookup (x2 :: x1 :: h) (length h) = Some x1.
Proof.
  rewrite lookup_alloc_old by (simpl; lia). apply lookup_alloc_new.
Qed.

Lemma update2_old (h : heap P) (x1 x2 : object P) (f : object P -> object P) :
  update (x2 :: x1 :: h) (length h) f = x2 :: f x1 :: h.
Proof.
  rewrite update_alloc_old by (simpl; lia). now rewrite update_alloc_new.
Qed.

Lemma not_on_stack (n : nat) : existsb (Nat.eqb (S n)) [n] = false.
Proof. cbn [existsb]. destruct (Nat.eqb_spec (S n) n); [lia|reflexivity]. Qed.

Lemma Serialize_VString (f : nat) (h : heap P) (st : list addr) (s : jsstring) :
  SerializeJSONProperty f h st (VString s) = Normal (Some (JString s)).
Proof. destruct f; reflexivity. Qed.

Lemma Serialize_VNumber (f : nat) (h : heap P) (st : list addr) (n : number P) :
  SerializeJSONProperty f h st (VNumber n)
  = Normal (Some (if Number_isFinite P n then JNumber n else JNull)).
Proof. destruct f; reflexivity. Qed.

Lemma Serialize_VUndefined (f : nat) (h : heap P) (st : list addr) :
  SerializeJSONProperty f h st VUndefined = Normal None.
Proof. destruct f; reflexivity. Qed.

(** *** A failure value that is a string *)

Ltac report_string E :=
  rewrite E;
  unfold try_stringify, JSON_stringify;
  rewrite !Serialize_VString;
  cbn [bind option_map alloc instanceof assign];
  rewrite update_alloc_new;
  unfold data; cbn [set_property key enumerable val]; eval_names;
  cbn [length]; rewrite Serialize_object; cbn [existsb];
  rewrite lookup_alloc_new;
  cbn [serialize_props key enumerable val typeTag];
  rewrite ?Serialize_VString, ?Serialize_VNumber, ?Serialize_VUndefined;
  cbn [bind option_map];
  eexists; (split; [reflexivity|]); members; split; reflexivity.

Lemma errorListener_string (h : heap P) (ev : ErrorEvent P) (s : jsstring) :
  error ev = VString s ->
  exists doc : json P,
    errorListener h ev = Normal [post "/api/report/error" (Some (print doc))]
    /\ member "error" doc = None
    /\ member "rawError" doc = Some (JString (QuoteJSONString s)).
Proof. intros E. unfold errorListener. report_string E. Qed.

Lemma rejectionListener_string (h : heap P) (ev : PromiseRejectionEvent P)
      (s : jsstring) :
  reason ev = VString s ->
  exists doc : json P,
    rejectionListener h ev
    = Normal [post "/api/report/unhandled-rejection" (Some (print doc))]
    /\ member "error" doc = None
    /\ member "rawReason" doc = Some (JString (QuoteJSONString s)).
Proof. intros E. unfold rejectionListener. report_string E. Qed.

(** *** A failure value that is an instance of [Error] *)

Ltac report_Error h v Hinst Hname Hstack :=
  cbn [alloc]; rewrite (instanceof_alloc P h _ _ _ Hinst);
  unfold getErrorDetails;
  rewrite !(Get_alloc P h _ _ _ _ Hinst), Hname, Hstack;
  cbn [alloc assign length]; rewrite update2_old;
  unfold data; cbn [set_property key enumerable val]; eval_names;
  unfold JSON_stringify; cbn [length];
  let ty := fresh "ty" in
  let raw := fresh "raw" in
  let cause := fresh "cause" in
  let h3 := fresh "h3" in
  let L1 := fresh "L1" in
  let L2 := fresh "L2" in
  set (ty := typeTag h v); set (raw := try_stringify h v);
  set (cause := Get h v (str "cause"));
  clearbody ty raw cause;
  match goal with
  | |- context [SerializeJSONProperty _ (?x2 :: ?x1 :: h)] =>
      pose proof (lookup2_old h x1 x2) as L1;
      pose proof (lookup2_new h x1 x2) as L2;
      set (h3 := x2 :: x1 :: h) in *; clearbody h3
  end;
  rewrite Serialize_object; cbn [existsb]; rewrite L1;
  cbn [serialize_props key enumerable val];
  rewrite ?Serialize_VString, ?Serialize_VNumber;
  rewrite Serialize_object, not_on_stack, L2;
  cbn [serialize_props key enumerable val];
  rewrite !Serialize_VString;
  repeat match goal with
         | |- context [SerializeJSONProperty ?f ?hh ?st ?w] =>
             destruct (SerializeJSONProperty f hh st w) as [[?|]|?]
         end;
  cbn [bind option_map];
  let Hres := fresh "Hres" in
  intros Hres; try discriminate;
  match type of Hres with
  | Normal [post _ (Some (print ?d))] = _ => exists d
  end;
  eexists; (split; [congruence|]);
  members; (split; [reflexivity|]); members; split; reflexivity.

Lemma errorListener_Error (h : heap P) (ev : ErrorEvent P) (name stack : jsstring)
      (requests : list request) :
  instanceof h (error ev) ClassError = true ->
  Get h (error ev) (str "name") = VString name ->
  Get h (error ev) (str "stack") = VString stack ->
  errorListener h ev = Normal requests ->
  exists doc details : json P,
    requests = [post "/api/report/error" (Some (print doc))]
    /\ member "error" doc = Some details
    /\ member "name" details = Some (JString name)
    /\ member "stack" details = Some (JString stack).
Proof.
  intros Hinst Hname Hstack. unfold errorListener.
  report_Error h (error ev) Hinst Hname Hstack.
Qed.

Lemma rejectionListener_Error (h : heap P) (ev : PromiseRejectionEvent P)
      (name stack : jsstring) (requests : list request) :
  instanceof h (reason ev) ClassError = true ->
  Get h (reason ev) (str "name") = VString name ->
  Get h (reason ev) (str "stack") = VString stack ->
  rejectionListener h ev = Normal requests ->
  exists doc details : json P,
    requests = [post "/api/report/unhandled-rejection" (Some (print doc))]
    /\ member "error" doc = Some details
    /\ member "name" details = Some (JString name)
    /\ member "stack" details = Some (JString stack).
Proof.
  intros Hinst Hname Hstack. unfold rejectionListener.
  report_Error h (reason ev) Hinst Hname Hstack.
Qed.

(** *** When the report of an error is posted *)

Lemma Serialize_primitive (f : nat) (h : heap P) (st : list addr) (v : value P) :
  primitive v = true -> SerializeJSONProperty f h st v = Normal (primitive_json v).
Proof. destruct v, f; simpl; intros H; try discriminate; reflexivity. Qed.

Lemma try_stringify_primitive (h : heap P) (v : value P) :
  primitive (try_stringify h v) = true.
Proof.
  unfold try_stringify. destruct (JSON_stringify h v) as [[text|]|e]; reflexivity.
Qed.

Ltac report_Error_posts h v Hinst Hname Hstack Hcause Hty :=
  cbn [alloc]; rewrite (instanceof_alloc P h _ _ _ Hinst);
  unfold getErrorDetails;
  rewrite !(Get_alloc P h _ _ _ _ Hinst), Hname, Hstack;
  cbn [alloc assign length]; rewrite update2_old;
  unfold data; cbn [set_property key enumerable val]; eval_names;
  unfold JSON_stringify; cbn [length];
  pose proof (try_stringify_primitive h v) as Hraw;
  let ty := fresh "ty" in
  let raw := fresh "raw" in
  let cause := fresh "cause" in
  let h3 := fresh "h3" in
  let L1 := fresh "L1" in
  let L2 := fresh "L2" in
  set (ty := typeTag h v) in *; set (raw := try_stringify h v) in *;
  set (cause := Get h v (str "cause")) in *;
  clearbody ty raw cause;
  match goal with
  | |- context [SerializeJSONProperty _ (?x2 :: ?x1 :: h)] =>
      pose proof (lookup2_old h x1 x2) as L1;
      pose proof (lookup2_new h x1 x2) as L2;
      set (h3 := x2 :: x1 :: h) in *; clearbody h3
  end;
  rewrite Serialize_object; cbn [existsb]; rewrite L1;
  cbn [serialize_props key enumerable val];
  rewrite ?Serialize_VString, ?Serialize_VNumber;
  rewrite Serialize_object, not_on_stack, L2;
  cbn [serialize_props key enumerable val];
  rewrite !Serialize_VString;
  rewrite (Serialize_primitive _ _ _ ty Hty), (Serialize_primitive _ _ _ raw Hraw),
    (Serialize_primitive _ _ _ cause Hcause);
  destruct (primitive_json ty), (primitive_json raw), (primitive_json cause);
  cbn [bind option_map];
  eexists; eexists; (split; [reflexivity|]);
  members; (split; [reflexivity|]); members; split; reflexivity.

(** For an instance of [Error] whose cause and type tag are primitives other
    than a BigInt the report is posted. *)
Lemma errorListener_Error_posts (h : heap P) (ev : ErrorEvent P) (name stack : jsstring) :
  instanceof h (error ev) ClassError = true ->
  Get h (error ev) (str "name") = VString name ->
  Get h (error ev) (str "stack") = VString stack ->
  primitive (Get h (error ev) (str "cause")) = true ->
  primitive (typeTag h (error ev)) = true ->
  exists doc details : json P,
    errorListener h ev = Normal [post "/api/report/error" (Some (print doc))]
    /\ member "error" doc = Some details
    /\ member "name" details = Some (JString name)
    /\ member "stack" details = Some (JString stack).
Proof.
  intros Hinst Hname Hstack Hcause Hty. unfold errorListener.
  report_Error_posts h (error ev) Hinst Hname Hstack Hcause Hty.
Qed.

Lemma rejectionListener_Error_posts (h : heap P) (ev : PromiseRejectionEvent P)
      (name stack : jsstring) :
  instanceof h (reason ev) ClassError = true ->
  Get h (reason ev) (str "name") = VString name ->
  Get h (reason ev) (str "stack") = VString stack ->
  primitive (Get h (reason ev) (str "cause")) = true ->
  primitive (typeTag h (reason ev)) = true ->
  exists doc details : json P,
    rejectionListener h ev
    = Normal [post "/api/report/unhandled-rejection" (Some (print doc))]
    /\ member "error" doc = Some details
    /\ member "name" details = Some (JString name)
    /\ member "stack" details = Some (JString stack).
Proof.
  intros Hinst Hname Hstack Hcause Hty. unfold rejectionListener.
  report_Error_posts h (reason ev) Hinst Hname Hstack Hcause Hty.
Qed.

End Reporter.

(** *** [JSON.stringify] does not run out of fuel *)

Section Fuel.
Variable P : Platform.

Lemma serialize_props_no_RangeError (ser : value P -> completion (option (json P)))
      (props : list (property P)) :
  (forall v, ser v <> Throw RangeError) ->
  serialize_props ser props <> Throw RangeError.
Proof.
  intros Hser. induction props as [|p r IH]; simpl; [discriminate|].
  destruct (enumerable p); [|exact IH].
  destruct (ser (val p)) as [j|e] eqn:E; simpl.
  - destruct (serialize_props ser r) as [m|e]; simpl; [discriminate|exact IH].
  - intros Heq. injection Heq as ->. exact (Hser _ E).
Qed.

Lemma serialize_elements_no_RangeError (ser : value P -> completion (option (json P)))
      (elements : list (value P)) :
  (forall v, ser v <> Throw RangeError) ->
  serialize_elements ser elements <> Throw RangeError.
Proof.
  intros Hser. induction elements as [|x r IH]; simpl; [discriminate|].
  destruct (ser x) as [j|e] eqn:E; simpl.
  - destruct (serialize_elements ser r) as [m|e]; simpl; [discriminate|exact IH].
  - intros Heq. injection Heq as ->. exact (Hser _ E).
Qed.

Lemma stack_bound (n : nat) (stack : list addr) :
  NoDup stack -> (forall a, In a stack -> a < n) -> length stack <= n.
Proof.
  intros Hnd Hlt.
  assert (H : length stack <= length (seq 0 n)); [|now rewrite length_seq in H].
  apply NoDup_incl_length; [exact Hnd|].
  intros a Ha. apply in_seq. specialize (Hlt a Ha). lia.
Qed.

Lemma Serialize_no_RangeError (fuel : nat) (h : heap P) :
  forall (stack : list addr) (v : value P),
    NoDup stack -> (forall a, In a stack -> a < length h) ->
    length h < fuel + length stack ->
    SerializeJSONProperty fuel h stack v <> Throw RangeError.
Proof.
  induction fuel as [|f IH]; intros stack v Hnd Hlt Hfuel.
  - pose proof (stack_bound (length h) stack Hnd Hlt). simpl in Hfuel. lia.
  - destruct v; try (simpl; discriminate).
    rewrite Serialize_object.
    destruct (existsb (Nat.eqb a) stack) eqn:Hmem; [discriminate|].
    destruct (lookup h a) as [o|] eqn:Hlook; [|discriminate].
    assert (Hser : forall w, SerializeJSONProperty f h (a :: stack) w <> Throw RangeError).
    { intros w. apply IH.
      - constructor; [|exact Hnd]. intros Hin.
        assert (existsb (Nat.eqb a) stack = true); [|congruence].
        apply existsb_exists. exists a. split; [exact Hin|apply Nat.eqb_refl].
      - intros b [<-|Hb]; [now apply (lookup_lt P h a o)|now apply Hlt].
      - simpl. lia. }
    destruct o as [c props|elements].
    + pose proof (serialize_props_no_RangeError _ props Hser) as Hp.
      destruct (serialize_props _ props); simpl; [discriminate|].
      intros Heq. injection Heq as ->. now apply Hp.
    + pose proof (serialize_elements_no_RangeError _ elements Hser) as Hp.
      destruct (serialize_elements _ elements); simpl; [discriminate|].
      intros Heq. injection Heq as ->. now apply Hp.
Qed.

Lemma JSON_stringify_no_RangeError (h : heap P) (v : value P) :
  JSON_stringify h v <> Throw RangeError.
Proof.
  unfold JSON_stringify.
  pose proof (Serialize_no_RangeError (S (length h)) h [] v (NoDup_nil _)) as H.
  destruct (SerializeJSONProperty (S (length h)) h [] v) as [j|e]; simpl;
    [discriminate|].
  intros Heq. injection Heq as ->. apply H; [intros a []|simpl; lia|reflexivity].
Qed.

(** An instance of [DOMException] is an instance of [Error]. *)
Lemma DOMException_instanceof_Error (h : heap P) (v : value P) :
  instanceof h v ClassDOMException = true -> instanceof h v ClassError = true.
Proof.
  destruct v; simpl; try discriminate.
  destruct (lookup h a) as [o|]; [|discriminate].
  destruct (class_of o); simpl; try discriminate; reflexivity.
Qed.

End Fuel.

(** C1 at a failing input: the error's cause reaches itself.  The first,
    guarded serialization gives the text of an empty object, because the
    own properties of an error are not enumerable; the serialization of the
    report follows [cause] into the cycle and both listeners throw. *)
Theorem listeners_throw_C1 :
  try_stringify cyclic_cause_heap (VObject 1) = VString (str "{}")
  /\ errorListener cyclic_cause_heap (error_event (VObject 1)) = Throw TypeError
  /\ rejectionListener cyclic_cause_heap (rejection_event (VObject 1))
     = Throw TypeError.
Proof. repeat split; vm_compute; reflexivity. Qed.

(** C4 at a failing input: for a [DOMException] both listeners take the
    branch of [Error], and the details in the report are its [stack] and
    [name]; [message] and [code] are not there. *)
Theorem DOMException_details_C4 :
  instanceof abort_heap (VObject 0) ClassDOMException = true
  /\ errorListener abort_heap (error_event (VObject 0))
     = Normal [post "/api/report/error" (Some (print abort_report))]
  /\ member "error" abort_report = Some abort_details
  /\ member_names abort_details = [str "stack"; str "name"]
  /\ rejectionListener abort_heap (rejection_event (VObject 0))
     = Normal [post "/api/report/unhandled-rejection"
                    (Some (print (JObject [(str "type", JString (str "DOMException"));
                                           (str "rawReason", JString (str "{}"));
                                           (str "error", abort_details)])))].
Proof. repeat split; vm_compute; reflexivity. Qed.

(** C9: for a failure value that is a string, each listener posts a report
    without the [error] member and with the JSON text of the string as
    [rawError] or [rawReason].  For an instance of [Error] whose [name] and
    [stack] are strings, the report that a listener posts has an [error]
    member that holds them; it is posted when the cause and the type tag
    are primitives other than a BigInt. *)
Theorem report_members_C9 (P : Platform) (h : heap P) :
  (forall (ev : ErrorEvent P) (s : jsstring),
      error ev = VString s ->
      exists doc : json P,
        errorListener h ev = Normal [post "/api/report/error" (Some (print doc))]
        /\ member "error" doc = None
        /\ member "rawError" doc = Some (JString (QuoteJSONString s)))
  /\ (forall (ev : PromiseRejectionEvent P) (s : jsstring),
         reason ev = VString s ->
         exists doc : json P,
           rejectionListener h ev
           = Normal [post "/api/report/unhandled-rejection" (Some (print doc))]
           /\ member "error" doc = None
           /\ member "rawReason" doc = Some (JString (QuoteJSONString s)))
  /\ (forall (ev : ErrorEvent P) (name stack : jsstring),
         instanceof h (error ev) ClassError = true ->
         Get h (error ev) (str "name") = VString name ->
         Get h (error ev) (str "stack") = VString stack ->
         (primitive (Get h (error ev) (str "cause")) = true ->
          primitive (typeTag h (error ev)) = true ->
          exists requests, errorListener h ev = Normal requests)
         /\ (forall requests,
                errorListener h ev = Normal requests ->
                exists doc details : json P,
                  requests = [post "/api/report/error" (Some (print doc))]
                  /\ member "error" doc = Some details
                  /\ member "name" details = Some (JString name)
                  /\ member "stack" details = Some (JString stack)))
  /\ (forall (ev : PromiseRejectionEvent P) (name stack : jsstring),
         instanceof h (reason ev) ClassError = true ->
         Get h (reason ev) (str "name") = VString name ->
         Get h (reason ev) (str "stack") = VString stack ->
         (primitive (Get h (reason ev) (str "cause")) = true ->
          primitive (typeTag h (reason ev)) = true ->
          exists requests, rejectionListener h ev = Normal requests)
         /\ (forall requests,
                rejectionListener h ev = Normal requests ->
                exists doc details : json P,
                  requests
                  = [post "/api/report/unhandled-rejection" (Some (print doc))]
                  /\ member "error" doc = Some details
                  /\ member "name" details = Some (JString name)
                  /\ member "stack" details = Some (JString stack))).
Proof.
  split; [exact (errorListener_string P h)|].
  split; [exact (rejectionListener_string P h)|].
  split; intros ev name stack Hinst Hname Hstack; split.
  - intros Hcause Hty.
    destruct (errorListener_Error_posts P h ev name stack Hinst Hname Hstack Hcause Hty)
      as (doc & details & E & _).
    eexists. exact E.
  - intros requests. now apply errorListener_Error.
  - intros Hcause Hty.
    destruct (rejectionListener_Error_posts P h ev name stack Hinst Hname Hstack
                                            Hcause Hty)
      as (doc & details & E & _).
    eexists. exact E.
  - intros requests. now apply rejectionListener_Error.
Qed.

(** C9 at the string ["boom"] and at [new Error("boom")]. *)
Lemma report_members_C9_witness :
  error (error_event (VString (str "boom"))) = VString (str "boom")
  /\ instanceof plain_error_heap (VObject 0) ClassError = true
  /\ (exists doc : json integerPlatform,
         errorListener plain_error_heap (error_event (VString (str "boom")))
         = Normal [post "/api/report/error" (Some (print doc))]
         /\ member "error" doc = None
         /\ member "rawError" doc = Some (JString (QuoteJSONString (str "boom"))))
  /\ (exists (requests : list request) (doc details : json integerPlatform),
         errorListener plain_error_heap (error_event (VObject 0)) = Normal requests
         /\ requests = [post "/api/report/error" (Some (print doc))]
         /\ member "error" doc = Some details
         /\ member "name" details = Some (JString (str "Error"))
         /\ member "stack" details = Some (JString (str "Error: boom"))).
Proof.
  destruct (report_members_C9 integerPlatform plain_error_heap)
    as (Hstring & _ & Herror & _).
  split; [reflexivity|]. split; [reflexivity|]. split.
  - apply Hstring. reflexivity.
  - destruct (Herror (error_event (VObject 0)) (str "Error") (str "Error: boom")
                     eq_refl eq_refl eq_refl) as (Hposts & Hmembers).
    destruct (Hposts eq_refl eq_refl) as (requests & E).
    destruct (Hmembers requests E) as (doc & details & H1 & H2 & H3 & H4).
    exists requests, doc, details. repeat split; assumption.
Defined.

(** ** Examples *)

Example deindent_blank_line_counts :
  deindent (str "    a" ++ LF :: str "  " ++ LF :: str "      b")
  = str "  a" ++ LF :: LF :: str "    b".
Proof. reflexivity. Qed.

Example deindent_strips_unindented_line :
  deindent (str "  ab" ++ LF :: str "cde") = str "ab" ++ LF :: str "e".
Proof. reflexivity. Qed.

Example btoa_hello : btoa (str "hello") = Normal (str "aGVsbG8=").
Proof. reflexivity. Qed.

Example atob_skips_whitespace : atob (str "aGVs bG8h") = Normal (str "hello!").
Proof. reflexivity. Qed.

Example atob_without_padding : atob (str "aGVsbG8") = Normal (str "hello").
Proof. reflexivity. Qed.

Example atob_bad_length : atob (str "a") = Throw InvalidCharacterError.
Proof. reflexivity. Qed.

Example btoa_out_of_range : btoa [256%N] = Throw InvalidCharacterError.
Proof. reflexivity. Qed.

Example length_counts_code_units :
  _inputChange integerPlatform (str "length") [55357%N; 56832%N]
               {| _outputValue := []; _inputError := false |}
  = Normal {| _outputValue := str "2"; _inputError := false |}.
Proof. reflexivity. Qed.

Example json_escape_example :
  _inputChange integerPlatform (str "json-escape") (str "a\b" ++ LF :: [QUOTE])
               {| _outputValue := []; _inputError := false |}
  = Normal {| _outputValue := str "a\\b\n\" ++ [QUOTE]; _inputError := false |}.
Proof. vm_compute. reflexivity. Qed.

Example json_array_to_lines_nested :
  _inputChange integerPlatform (str "json-array-to-lines")
               (str "[1, [2, [3, null]], {}, true, null]")
               {| _outputValue := []; _inputError := false |}
  = Normal {| _outputValue :=
                str "1" ++ LF :: str "2,3," ++ LF :: str "[object Object]"
                    ++ LF :: str "true" ++ [LF];
              _inputError := false |}.
Proof. vm_compute. reflexivity. Qed.

Example json_array_to_lines_not_an_array :
  _inputChange integerPlatform (str "json-array-to-lines") (str "{}")
               {| _outputValue := str "old"; _inputError := false |}
  = Normal {| _outputValue := []; _inputError := true |}.
Proof. vm_compute. reflexivity. Qed.

Example unexpected_function_rejects :
  _inputChange integerPlatform (str "rot13") (str "abc")
               {| _outputValue := []; _inputError := false |}
  = Throw (Error (str "Unexpected function: rot13")).
Proof. vm_compute. reflexivity. Qed.

Example cyclic_value_is_reported :
  exists text,
    errorListener cyclic_cause_heap (error_event (VObject 0))
    = Normal [post "/api/report/error" (Some text)].
Proof. eexists. vm_compute. reflexivity. Qed.

(** * Further properties of the dispatcher *)

(** ** Which function names are handled *)

Lemma jsstring_eqb_eq (a b : jsstring) : jsstring_eqb a b = true <-> a = b.
Proof.
  unfold jsstring_eqb. destruct (list_eq_dec N.eq_dec a b); split; congruence.
Qed.

Lemma jsstring_eqb_neq (a b : jsstring) : jsstring_eqb a b = false <-> a <> b.
Proof.
  unfold jsstring_eqb. destruct (list_eq_dec N.eq_dec a b); split; congruence.
Qed.

(** X1: the outcome of the handler by function name.  For a name that is
    neither empty nor one of the select element's it rejects with the error
    whose message is [Unexpected function: ] followed by the name.  For the
    empty name and the names of the select element it returns normally,
    whatever the input, with one exception: [deindent] rejects with a
    RangeError when the input has more indented lines than the engine
    accepts arguments in a call, and only then. *)
Theorem dispatch_outcome_by_name (P : Platform)
        (functionName functionInput : jsstring) (this : ToolsApp) :
  ((functionName = [] \/ In functionName supported)
   /\ (((exists this', _inputChange P functionName functionInput this = Normal this')
        /\ (functionName = str "deindent" ->
            length (indentations functionInput) <= max_arguments P))
       \/ (functionName = str "deindent"
           /\ max_arguments P < length (indentations functionInput)
           /\ _inputChange P functionName functionInput this = Throw RangeError)))
  \/ (functionName <> [] /\ ~ In functionName supported
      /\ _inputChange P functionName functionInput this
         = Throw (Error (str "Unexpected function: " ++ functionName))).
Proof.
  destruct (jsstring_eqb functionName (str "deindent")) eqn:Ed.
  - apply jsstring_eqb_eq in Ed. subst functionName. left.
    split; [right; cbn; tauto|]. rewrite deindent_case.
    destruct (Nat.ltb_spec (max_arguments P) (length (indentations functionInput)))
      as [Hlt|Hle].
    + right. split; [reflexivity|]. split; [exact Hlt|reflexivity].
    + left. split; [eexists; reflexivity|]. intros _. exact Hle.
  - unfold _inputChange, supported. cbn [map In]. rewrite Ed.
    repeat match goal with
           | |- context [jsstring_eqb functionName ?x] =>
               let E := fresh "E" in
               destruct (jsstring_eqb functionName x) eqn:E;
               [apply jsstring_eqb_eq in E; left; split;
                [first [left; exact E
                       |right; rewrite E; repeat (first [left; reflexivity|right])]
                |cbn [orb]; left; split;
                 [eexists; reflexivity
                 |intros Hd; apply jsstring_eqb_eq in Hd; congruence]]
               |apply jsstring_eqb_neq in E]
           end.
    apply jsstring_eqb_neq in Ed.
    right. cbn [orb]. split; [assumption|]. split; [|reflexivity].
    intuition congruence.
Qed.

(** ** The hexadecimal text of a digest *)

Lemma hex_pair (b : N) :
  (b < 256)%N ->
  padStart0 2 (byte_toString16 b) = [hexdigit (b / 16); hexdigit (b mod 16)].
Proof.
  intros H. unfold byte_toString16, padStart0.
  destruct (N.ltb_spec b 16) as [Hlt|Hge]; cbn [length Nat.sub repeat app].
  - rewrite N.div_small, N.mod_small by exact Hlt. reflexivity.
  - reflexivity.
Qed.

Lemma hexdigit_lower (d : N) :
  (d < 16)%N ->
  let c := hexdigit d in ((48 <= c <= 57) \/ (97 <= c <= 102))%N.
Proof.
  intros H. unfold hexdigit. destruct (N.ltb_spec d 10); lia.
Qed.

Lemma hexdigit_injective (d e : N) :
  (d < 16)%N -> (e < 16)%N -> hexdigit d = hexdigit e -> d = e.
Proof.
  intros Hd He H. apply (f_equal hexvalue) in H.
  rewrite !hexvalue_hexdigit in H by assumption. congruence.
Qed.

Lemma join_empty_cons (x : jsstring) (r : list jsstring) :
  join [] (x :: r) = x ++ join [] r.
Proof. destruct r; [cbn; now rewrite app_nil_r|reflexivity]. Qed.

Lemma hex_of_bytes (bytes : list N) :
  Forall (fun b => (b < 256)%N) bytes ->
  join [] (map (fun b => padStart0 2 (byte_toString16 b)) bytes)
  = flat_map (fun b => [hexdigit (b / 16); hexdigit (b mod 16)]) bytes.
Proof.
  induction 1 as [|b r Hb Hr IH]; [reflexivity|].
  cbn [map flat_map]. rewrite join_empty_cons, IH, hex_pair by exact Hb. reflexivity.
Qed.

Lemma hex_of_bytes_injective (a b : list N) :
  Forall (fun x => (x < 256)%N) a -> Forall (fun x => (x < 256)%N) b ->
  flat_map (fun x => [hexdigit (x / 16); hexdigit (x mod 16)]) a
  = flat_map (fun x => [hexdigit (x / 16); hexdigit (x mod 16)]) b ->
  a = b.
Proof.
  intros Ha. revert b. induction Ha as [|x r Hx Hr IH]; intros b Hb E.
  - destruct b; [reflexivity|discriminate].
  - destruct Hb as [|y s Hy Hs]; [discriminate|].
    cbn [flat_map app] in E. injection E as E1 E2 E3.
    apply hexdigit_injective in E1; [|euclid..].
    apply hexdigit_injective in E2; [|euclid..].
    f_equal; [euclid|now apply IH].
Qed.

(** X2: for each of the three hash names the handler returns normally
    without the error flag, and the output has two lowercase hexadecimal
    digits for every byte of the digest. *)
Theorem hash_output_format (P : Platform) (functionName functionInput : jsstring)
        (this : ToolsApp) :
  In functionName [str "SHA-1"; str "SHA-256"; str "SHA-512"] ->
  Forall (fun b => (b < 256)%N)
         (crypto_subtle_digest P functionName (TextEncoder_encode P functionInput)) ->
  exists this',
    _inputChange P functionName functionInput this = Normal this'
    /\ _inputError this' = false
    /\ length (_outputValue this')
       = 2 * length (crypto_subtle_digest P functionName
                                          (TextEncoder_encode P functionInput))
    /\ Forall (fun c => (48 <= c <= 57)%N \/ (97 <= c <= 102)%N) (_outputValue this').
Proof.
  intros Hin Hbytes. unfold _inputChange.
  assert (E : _inputChange P functionName functionInput this
              = Normal (set_outputValue (set_inputError this false)
                                        (hashHex P functionInput functionName))).
  { unfold _inputChange. cbn [In] in Hin.
    destruct Hin as [<-|[<-|[<-|[]]]]; eval_names; reflexivity. }
  unfold _inputChange in E. rewrite E. clear E.
  eexists. split; [reflexivity|]. split; [reflexivity|].
  cbn [_outputValue set_outputValue]. unfold hashHex.
  rewrite hex_of_bytes by exact Hbytes.
  induction Hbytes as [|b r Hb Hr IH]; [split; [reflexivity|constructor]|].
  destruct IH as [IHl IHf]. cbn [flat_map app length]. split; [lia|].
  constructor; [apply hexdigit_lower; euclid|].
  constructor; [apply hexdigit_lower; euclid|exact IHf].
Qed.

Lemma hash_output_format_witness :
  In (str "SHA-256") [str "SHA-1"; str "SHA-256"; str "SHA-512"]
  /\ exists this',
      _inputChange integerPlatform (str "SHA-256") (str "AZ")
                   {| _outputValue := []; _inputError := true |} = Normal this'
      /\ _inputError this' = false
      /\ length (_outputValue this')
         = 2 * length (crypto_subtle_digest integerPlatform (str "SHA-256")
                         (TextEncoder_encode integerPlatform (str "AZ")))
      /\ Forall (fun c => (48 <= c <= 57)%N \/ (97 <= c <= 102)%N) (_outputValue this').
Proof.
  assert (H : In (str "SHA-256") [str "SHA-1"; str "SHA-256"; str "SHA-512"])
    by (right; left; reflexivity).
  split; [exact H|].
  apply hash_output_format; [exact H|].
  repeat constructor.
Defined.

(** X3: the hexadecimal text loses nothing: two digests with the same text
    are the same bytes. *)
Theorem hashHex_injective (P : Platform) (m1 a1 m2 a2 : jsstring) :
  Forall (fun b => (b < 256)%N) (crypto_subtle_digest P a1 (TextEncoder_encode P m1)) ->
  Forall (fun b => (b < 256)%N) (crypto_subtle_digest P a2 (TextEncoder_encode P m2)) ->
  hashHex P m1 a1 = hashHex P m2 a2 ->
  crypto_subtle_digest P a1 (TextEncoder_encode P m1)
  = crypto_subtle_digest P a2 (TextEncoder_encode P m2).
Proof.
  intros H1 H2. unfold hashHex. rewrite !hex_of_bytes by assumption.
  now apply hex_of_bytes_injective.
Qed.

Lemma hashHex_injective_witness :
  hashHex integerPlatform (str "AZ") (str "SHA-1")
  = hashHex integerPlatform (str "AZ") (str "SHA-256")
  /\ crypto_subtle_digest integerPlatform (str "SHA-1")
       (TextEncoder_encode integerPlatform (str "AZ"))
     = crypto_subtle_digest integerPlatform (str "SHA-256")
         (TextEncoder_encode integerPlatform (str "AZ")).
Proof.
  assert (E : hashHex integerPlatform (str "AZ") (str "SHA-1")
              = hashHex integerPlatform (str "AZ") (str "SHA-256")) by reflexivity.
  split; [exact E|].
  apply hashHex_injective; [repeat constructor..|exact E].
Defined.

(** ** Escaped JSON text *)

Lemma slice_inner (x : jsstring) (a b : codeunit) :
  String_slice (a :: x ++ [b]) (Int 1) (Some (Int (-1))) = x.
Proof.
  unfold String_slice. cbn [Z.ltb Z.compare length].
  rewrite length_app. cbn [length].
  replace (Z.min 1 (Z.of_nat (S (length x + 1)))) with 1%Z by lia.
  replace (Z.max (Z.of_nat (S (length x + 1)) + -1) 0)
    with (Z.of_nat (length x + 1)) by lia.
  destruct x as [|c r].
  - reflexivity.
  - destruct (Z.ltb_spec 1 (Z.of_nat (length (c :: r) + 1))) as [_|H];
      [|cbn [length] in H; lia].
    change (Z.to_nat 1) with 1. cbn [skipn].
    replace (Z.to_nat (Z.of_nat (length (c :: r) + 1) - 1)) with (length (c :: r))
      by lia.
    rewrite firstn_app, firstn_all, Nat.sub_diag. cbn [firstn]. apply app_nil_r.
Qed.

Lemma JSON_parse_QuoteJSONString (P : Platform) (s : jsstring) :
  JSON_parse P (QuoteJSONString s) = Normal (JString s).
Proof.
  unfold JSON_parse.
  replace (2 * length (QuoteJSONString s) + 2) with (S (2 * length (QuoteJSONString s) + 1))
    by lia.
  rewrite <- (app_nil_r (QuoteJSONString s)) at 2.
  rewrite parse_value_string. reflexivity.
Qed.

(** X4: [json-escape] never sets the error flag, and its output between two
    double quotes is a JSON text that [JSON.parse] reads back as the
    input. *)
Theorem json_escape_parses_back (P : Platform) (s : jsstring) (this : ToolsApp) :
  exists this',
    _inputChange P (str "json-escape") s this = Normal this'
    /\ _inputError this' = false
    /\ JSON_parse P (QUOTE :: _outputValue this' ++ [QUOTE]) = Normal (JString s).
Proof.
  unfold _inputChange. eval_names.
  eexists. split; [reflexivity|]. split; [reflexivity|].
  cbn [try_outputValue set_outputValue _outputValue print].
  unfold QuoteJSONString at 1. rewrite slice_inner.
  apply (JSON_parse_QuoteJSONString P s).
Qed.

Lemma hexdigit_printable (d : N) : (32 <= hexdigit d)%N.
Proof. unfold hexdigit. destruct (N.ltb_spec d 10); lia. Qed.

Lemma quote_codepoint_printable (c : codeunit) :
  Forall (fun u => (32 <= u)%N) (quote_codepoint c).
Proof.
  unfold quote_codepoint, UnicodeEscape, BACKSLASH, QUOTE.
  repeat match goal with
         | |- context [if (c =? ?k)%N then _ else _] =>
             destruct (N.eqb_spec c k); [repeat constructor; lia|]
         end.
  destruct (N.ltb_spec c 32).
  - repeat constructor; try lia; apply hexdigit_printable.
  - repeat constructor. exact H.
Qed.

Lemma UnicodeEscape_printable (c : codeunit) :
  Forall (fun u => (32 <= u)%N) (UnicodeEscape c).
Proof.
  unfold UnicodeEscape, BACKSLASH.
  repeat constructor; try lia; apply hexdigit_printable.
Qed.

Lemma quote_chars_printable (s : jsstring) :
  Forall (fun u => (32 <= u)%N) (quote_chars s).
Proof.
  remember (length s) as n eqn:Hn.
  assert (Hle : length s <= n) by lia. clear Hn. revert s Hle.
  induction n as [|n IH]; intros s Hle.
  - destruct s; [constructor|simpl in Hle; lia].
  - destruct s as [|c r]; [constructor|]. simpl in Hle. cbn [quote_chars].
    destruct (isLeadingSurrogate c) eqn:Hlead.
    + unfold isLeadingSurrogate in Hlead. apply andb_prop in Hlead.
      destruct Hlead as [Hlo _]. apply N.leb_le in Hlo.
      destruct r as [|d r']; [apply UnicodeEscape_printable|].
      destruct (isTrailingSurrogate d) eqn:Htrail.
      * unfold isTrailingSurrogate in Htrail. apply andb_prop in Htrail.
        destruct Htrail as [Hlo' _]. apply N.leb_le in Hlo'.
        constructor; [lia|]. constructor; [lia|]. apply IH. simpl in Hle. lia.
      * apply Forall_app. split; [apply UnicodeEscape_printable|apply IH; lia].
    + destruct (isTrailingSurrogate c).
      * apply Forall_app. split; [apply UnicodeEscape_printable|apply IH; lia].
      * apply Forall_app. split; [apply quote_codepoint_printable|apply IH; lia].
Qed.

Lemma join_Forall (Q : codeunit -> Prop) (sep : jsstring) (l : list jsstring) :
  Forall Q sep -> Forall (Forall Q) l -> Forall Q (join sep l).
Proof.
  intros Hsep. induction 1 as [|x r Hx Hr IH]; [constructor|].
  destruct r as [|y r']; [exact Hx|].
  rewrite join_cons. apply Forall_app. split; [exact Hx|].
  apply Forall_app. split; [exact Hsep|exact IH].
Qed.

(** X5: the outputs of [json-escape] and of [lines-to-json-array] hold no
    code unit below U+0020: each is one line without control characters,
    whatever the input. *)
Theorem json_outputs_have_no_control_characters (P : Platform) (s : jsstring)
        (this : ToolsApp) :
  (exists this',
      _inputChange P (str "json-escape") s this = Normal this'
      /\ Forall (fun u => (32 <= u)%N) (_outputValue this'))
  /\ (exists this',
         _inputChange P (str "lines-to-json-array") s this = Normal this'
         /\ Forall (fun u => (32 <= u)%N) (_outputValue this')).
Proof.
  unfold _inputChange. split; eval_names; (eexists; split; [reflexivity|]);
    cbn [try_outputValue set_outputValue _outputValue].
  - cbn [print]. unfold QuoteJSONString. rewrite slice_inner.
    apply quote_chars_printable.
  - rewrite print_strings. constructor; [lia|].
    apply Forall_app. split; [|repeat constructor; lia].
    apply join_Forall; [repeat constructor; cbn; lia|].
    apply Forall_forall. intros q Hq. apply in_map_iff in Hq.
    destruct Hq as (l & <- & _). unfold QuoteJSONString.
    constructor; [unfold QUOTE; lia|].
    apply Forall_app. split; [apply quote_chars_printable|].
    repeat constructor. unfold QUOTE. lia.
Qed.

(** ** Base64: what the encoder writes and what the decoder accepts *)

Lemma bytes_or_not (s : jsstring) :
  Forall is_byte s \/ Exists (fun c => (255 < c)%N) s.
Proof.
  induction s as [|c r [IH|IH]].
  - left. constructor.
  - destruct (N.ltb_spec 255 c) as [H|H].
    + right. now constructor.
    + left. constructor; [exact H|exact IH].
  - right. now constructor 2.
Qed.

Lemma btoa_rejects_wide_unit (s : jsstring) :
  Exists (fun c => (255 < c)%N) s -> btoa s = Throw InvalidCharacterError.
Proof.
  intros H. unfold btoa.
  replace (existsb (fun c => (255 <? c)%N) s) with true; [reflexivity|].
  symmetry. apply existsb_exists. apply Exists_exists in H.
  destruct H as (c & Hin & Hc). exists c. split; [exact Hin|now apply N.ltb_lt].
Qed.

Lemma encode_length (bytes : list N) :
  length (forgiving_base64_encode bytes) = 4 * ((length bytes + 2) / 3).
Proof.
  unfold forgiving_base64_encode. rewrite length_app, length_map.
  induction bytes as [|a|a b|a b c r IH] using list_ind3; try reflexivity.
  rewrite padding_step. cbn [sextets length].
  revert IH. generalize (length (sextets r)) (length (padding r)) (length r).
  intros. euclid.
Qed.

Lemma padding_is_pad (bytes : list N) : Forall (fun c => c = PAD) (padding bytes).
Proof.
  unfold padding. destruct (length bytes mod 3) as [|[|[|n]]]; repeat constructor.
Qed.

(** X6: [encode-base64] has two outcomes.  When every code unit is at most
    255 the error flag is not set, the output has four characters for every
    three code units of the input, rounded up, and each of them is an ASCII
    letter, a digit, [+], [/] or [=].  When some code unit exceeds 255 the
    error flag is set and the output is empty. *)
Theorem encode_base64_outcome (P : Platform) (s : jsstring) (this : ToolsApp) :
  (Forall (fun c => (c <= 255)%N) s
   /\ exists this',
       _inputChange P (str "encode-base64") s this = Normal this'
       /\ _inputError this' = false
       /\ length (_outputValue this') = 4 * ((length s + 2) / 3)
       /\ Forall (fun c => (65 <= c <= 90)%N \/ (97 <= c <= 122)%N
                           \/ (48 <= c <= 57)%N \/ c = 43%N \/ c = 47%N \/ c = PAD)
                 (_outputValue this'))
  \/ (Exists (fun c => (255 < c)%N) s
      /\ _inputChange P (str "encode-base64") s this
         = Normal {| _outputValue := []; _inputError := true |}).
Proof.
  unfold _inputChange. eval_names.
  destruct (bytes_or_not s) as [H|H].
  - left. split; [exact H|]. rewrite (btoa_bytes s H).
    eexists. split; [reflexivity|]. split; [reflexivity|].
    cbn [try_outputValue set_outputValue _outputValue].
    split; [apply encode_length|].
    unfold forgiving_base64_encode. apply Forall_app. split.
    + apply Forall_forall. intros c Hc. apply in_map_iff in Hc.
      destruct Hc as (i & <- & _). pose proof (b64_char_cases i) as Hi.
      cbv zeta in Hi. tauto.
    + eapply Forall_impl; [|apply padding_is_pad]. cbv beta. tauto.
  - right. split; [exact H|]. rewrite (btoa_rejects_wide_unit s H). reflexivity.
Qed.

Lemma b64_index_bound (c : codeunit) (i : N) : b64_index c = Some i -> (i < 64)%N.
Proof.
  unfold b64_index.
  repeat match goal with
         | |- context [if ?b then _ else _] => destruct b eqn:?
         end;
    intros E; try discriminate; injection E as <-;
    repeat match goal with
           | H : (_ && _)%bool = true |- _ => apply andb_prop in H; destruct H
           | H : (_ <=? _)%N = true |- _ => apply N.leb_le in H
           end; lia.
Qed.

Lemma b64_indices_bound (d : jsstring) :
  forall idx, b64_indices d = Some idx -> Forall (fun i => (i < 64)%N) idx.
Proof.
  induction d as [|c r IH]; intros idx; cbn [b64_indices].
  - intros E. injection E as <-. constructor.
  - destruct (b64_index c) as [i|] eqn:Ei; [|discriminate].
    destruct (b64_indices r) as [l|]; [|discriminate].
    intros E. injection E as <-.
    constructor; [now apply (b64_index_bound c)|now apply IH].
Qed.

Lemma b64_fold_bytes (idx : list N) :
  Forall (fun i => (i < 64)%N) idx ->
  forall st,
    ((bits st = 0 /\ buffer st = 0) \/ (bits st = 6 /\ buffer st < 64)
     \/ (bits st = 12 /\ buffer st < 4096) \/ (bits st = 18 /\ buffer st < 262144))%N ->
    Forall is_byte (output st) ->
    Forall is_byte (b64_flush (fold_left b64_step idx st)).
Proof.
  unfold is_byte.
  induction 1 as [|i r Hi Hr IH]; intros st Hinv Hout.
  - cbn [fold_left]. unfold b64_flush.
    destruct Hinv as [[Hb Hv]|[[Hb Hv]|[[Hb Hv]|[Hb Hv]]]]; rewrite Hb; cbn [N.eqb Pos.eqb].
    + exact Hout.
    + exact Hout.
    + apply Forall_app. split; [exact Hout|]. repeat constructor. euclid.
    + apply Forall_app. split; [exact Hout|]. repeat constructor; euclid.
  - cbn [fold_left]. destruct st as [buf b out]. cbn [bits buffer output] in *.
    assert (Hstep :
              b64_step {| buffer := buf; bits := b; output := out |} i
              = if (b =? 18)%N then
                  {| buffer := 0; bits := 0;
                     output := out ++ [(buf * 64 + i) / 65536;
                                       (buf * 64 + i) / 256 mod 256;
                                       (buf * 64 + i) mod 256]%N |}
                else {| buffer := buf * 64 + i; bits := b + 6; output := out |}).
    { unfold b64_step. cbn [bits buffer output].
      destruct (N.eqb_spec (b + 6) 24), (N.eqb_spec b 18); try lia; reflexivity. }
    rewrite Hstep. clear Hstep.
    destruct Hinv as [[-> Hv]|[[-> Hv]|[[-> Hv]|[-> Hv]]]];
      cbn [N.eqb Pos.eqb]; apply IH; cbn [bits buffer output];
      try exact Hout; try lia.
    apply Forall_app. split; [exact Hout|]. repeat constructor; euclid.
Qed.

Lemma forgiving_base64_decode_bytes (d : jsstring) (bytes : list N) :
  forgiving_base64_decode d = Some bytes -> Forall is_byte bytes.
Proof.
  unfold forgiving_base64_decode.
  destruct (_ =? 1); [discriminate|].
  destruct (b64_indices _) as [idx|] eqn:E; [|discriminate].
  intros H. injection H as <-.
  apply b64_fold_bytes.
  - eapply b64_indices_bound. exact E.
  - left. split; reflexivity.
  - constructor.
Qed.

(** X7: what [decode-base64] gives without the error flag can be encoded
    again, and decoding that encoding gives the same output. *)
Theorem decode_output_reencodes (P : Platform) (data : jsstring) (this decoded : ToolsApp) :
  _inputChange P (str "decode-base64") data this = Normal decoded ->
  _inputError decoded = false ->
  exists encoded again,
    _inputChange P (str "encode-base64") (_outputValue decoded) decoded = Normal encoded
    /\ _inputError encoded = false
    /\ _inputChange P (str "decode-base64") (_outputValue encoded) encoded = Normal again
    /\ _inputError again = false
    /\ _outputValue again = _outputValue decoded.
Proof.
  unfold _inputChange. eval_names. unfold atob at 1.
  destruct (forgiving_base64_decode data) as [bytes|] eqn:E.
  - intros H _. injection H as <-.
    cbn [try_outputValue set_outputValue set_inputError _outputValue _inputError].
    pose proof (forgiving_base64_decode_bytes data bytes E) as Hb.
    rewrite (btoa_bytes bytes Hb).
    eexists. eexists. split; [reflexivity|]. split; [reflexivity|].
    cbn [try_outputValue set_outputValue set_inputError _outputValue _inputError].
    unfold atob. rewrite (forgiving_base64_roundtrip bytes Hb). repeat split.
  - intros H. injection H as <-. discriminate.
Qed.

Lemma decode_output_reencodes_witness :
  exists decoded encoded again,
    _inputChange integerPlatform (str "decode-base64") (str "aGk")
                 {| _outputValue := []; _inputError := false |} = Normal decoded
    /\ _inputError decoded = false
    /\ _inputChange integerPlatform (str "encode-base64") (_outputValue decoded) decoded
       = Normal encoded
    /\ _inputError encoded = false
    /\ _inputChange integerPlatform (str "decode-base64") (_outputValue encoded) encoded
       = Normal again
    /\ _inputError again = false
    /\ _outputValue again = _outputValue decoded.
Proof.
  eexists.
  assert (H : _inputChange integerPlatform (str "decode-base64") (str "aGk")
                           {| _outputValue := []; _inputError := false |}
              = Normal {| _outputValue := str "hi"; _inputError := false |})
    by reflexivity.
  destruct (decode_output_reencodes integerPlatform (str "aGk") _ _ H eq_refl)
    as (encoded & again & H1 & H2 & H3 & H4 & H5).
  exists encoded, again. repeat split; assumption.
Defined.

Lemma In_remove_padding (c : codeunit) (d : jsstring) :
  In c d -> c <> PAD -> In c (remove_padding d).
Proof.
  intros Hin Hc. unfold remove_padding.
  destruct (length d mod 4 =? 0); [|exact Hin].
  apply in_rev in Hin.
  destruct (rev d) as [|p [|q r]] eqn:E; [destruct Hin| |].
  - destruct Hin as [->|[]]. destruct (N.eqb_spec c PAD); [contradiction|].
    apply in_rev. rewrite E. now left.
  - destruct (N.eqb_spec p PAD) as [->|Hp].
    + destruct Hin as [Hin|Hin]; [congruence|].
      destruct (N.eqb_spec q PAD) as [->|Hq].
      * destruct Hin as [Hin|Hin]; [congruence|]. now apply in_rev in Hin.
      * now apply in_rev in Hin.
    + apply in_rev. now rewrite E.
Qed.

Lemma b64_indices_foreign (c : codeunit) (d : jsstring) :
  In c d -> b64_index c = None -> b64_indices d = None.
Proof.
  intros Hin Hc. induction d as [|x r IH]; [destruct Hin|].
  cbn [b64_indices]. destruct Hin as [->|Hin].
  - now rewrite Hc.
  - rewrite (IH Hin). now destruct (b64_index x).
Qed.

(** X8: one code unit that is neither in the base64 alphabet, nor ASCII
    white space, nor [=] makes [decode-base64] set the error flag and give
    the empty output, wherever it stands in the input. *)
Theorem decode_rejects_foreign_character (P : Platform) (data : jsstring) (c : codeunit)
        (this : ToolsApp) :
  In c data ->
  b64_index c = None -> isASCIIWhitespace c = false -> c <> PAD ->
  _inputChange P (str "decode-base64") data this
  = Normal {| _outputValue := []; _inputError := true |}.
Proof.
  intros Hin Hidx Hws Hpad. unfold _inputChange. eval_names.
  unfold atob, forgiving_base64_decode.
  assert (H : In c (remove_padding
                      (filter (fun u => negb (isASCIIWhitespace u)) data))).
  { apply In_remove_padding; [|exact Hpad]. apply filter_In.
    split; [exact Hin|now rewrite Hws]. }
  rewrite (b64_indices_foreign c _ H Hidx).
  destruct (_ =? 1); reflexivity.
Qed.

Lemma decode_rejects_foreign_character_witness :
  In 45%N (str "aGk-")
  /\ _inputChange integerPlatform (str "decode-base64") (str "aGk-")
                  {| _outputValue := str "old"; _inputError := false |}
     = Normal {| _outputValue := []; _inputError := true |}.
Proof.
  assert (H : In 45%N (str "aGk-")) by (cbn; tauto).
  split; [exact H|].
  apply (decode_rejects_foreign_character integerPlatform (str "aGk-") 45%N);
    [exact H|reflexivity|reflexivity|discriminate].
Defined.

Lemma filter_not_ws_idempotent (d : jsstring) :
  filter (fun c => negb (isASCIIWhitespace c))
         (filter (fun c => negb (isASCIIWhitespace c)) d)
  = filter (fun c => negb (isASCIIWhitespace c)) d.
Proof.
  induction d as [|c r IH]; [reflexivity|]. cbn [filter].
  destruct (negb (isASCIIWhitespace c)) eqn:E; [|exact IH].
  cbn [filter]. now rewrite E, IH.
Qed.

Lemma forgiving_base64_decode_ignores_ws (d : jsstring) :
  forgiving_base64_decode d
  = forgiving_base64_decode (filter (fun c => negb (isASCIIWhitespace c)) d).
Proof.
  unfold forgiving_base64_decode. now rewrite filter_not_ws_idempotent.
Qed.

Lemma remove_padding_unpadded (idx : list N) :
  remove_padding (map b64_char idx) = map b64_char idx.
Proof.
  unfold remove_padding. destruct (_ =? 0); [|reflexivity].
  rewrite <- map_rev.
  destruct (rev idx) as [|i [|j r]]; cbn [map]; [reflexivity| |];
    now rewrite b64_char_not_pad.
Qed.

Lemma forgiving_base64_decode_unpadded (bytes : list N) :
  Forall is_byte bytes ->
  forgiving_base64_decode (map b64_char (sextets bytes)) = Some bytes.
Proof.
  intros H. unfold forgiving_base64_decode.
  destruct (encode_shape bytes) as (_ & _ & _ & H4).
  rewrite filter_b64_chars, remove_padding_unpadded, length_map.
  destruct (Nat.eqb_spec (length (sextets bytes) mod 4) 1); [contradiction|].
  rewrite b64_indices_chars by now apply sextets_bound.
  f_equal. apply (b64_decode_sextets bytes H []).
Qed.

(** X9: [decode-base64] reads the encoding of a byte string back when ASCII
    white space is inserted anywhere in it, and also when the [=] padding
    is left out. *)
Theorem decode_tolerates_whitespace_and_missing_padding (P : Platform)
        (bytes data : jsstring) (this : ToolsApp) :
  Forall (fun c => (c <= 255)%N) bytes ->
  filter (fun c => negb (isASCIIWhitespace c)) data = forgiving_base64_encode bytes
  \/ filter (fun c => negb (isASCIIWhitespace c)) data = map b64_char (sextets bytes) ->
  _inputChange P (str "decode-base64") data this
  = Normal {| _outputValue := bytes; _inputError := false |}.
Proof.
  intros Hb Hdata. unfold _inputChange. eval_names. unfold atob.
  rewrite forgiving_base64_decode_ignores_ws.
  destruct Hdata as [-> | ->].
  - now rewrite (forgiving_base64_roundtrip bytes Hb).
  - now rewrite (forgiving_base64_decode_unpadded bytes Hb).
Qed.

Lemma decode_tolerates_whitespace_and_missing_padding_witness :
  Forall (fun c => (c <= 255)%N) (str "hello")
  /\ _inputChange integerPlatform (str "decode-base64")
                  (str "aGVs" ++ LF :: str "bG8")
                  {| _outputValue := []; _inputError := true |}
     = Normal {| _outputValue := str "hello"; _inputError := false |}.
Proof.
  assert (H : Forall (fun c => (c <= 255)%N) (str "hello"))
    by (repeat constructor; discriminate).
  split; [exact H|].
  apply (decode_tolerates_whitespace_and_missing_padding integerPlatform (str "hello"));
    [exact H|right; reflexivity].
Defined.

(** ** [deindent]: what is left of the indentation *)

Lemma leading_whitespace_skipn (k : nat) :
  forall line,
    k <= length (leading_whitespace line) ->
    leading_whitespace (skipn k line) = skipn k (leading_whitespace line).
Proof.
  induction k as [|k IH]; intros line Hk; [reflexivity|].
  destruct line as [|c r]; [reflexivity|].
  cbn [leading_whitespace] in *. destruct (isWhiteSpace c).
  - cbn [skipn]. apply IH. cbn [length] in Hk. lia.
  - cbn [length] in Hk. lia.
Qed.

Lemma join_skipn_length (sep : jsstring) (k : nat) (lines : list jsstring) :
  length (join sep (map (skipn k) lines)) <= length (join sep lines).
Proof.
  induction lines as [|x [|y r] IH]; [reflexivity| |].
  - cbn [map join]. rewrite length_skipn. lia.
  - change (map (skipn k) (x :: y :: r))
      with (skipn k x :: skipn k y :: map (skipn k) r).
    rewrite !join_cons, !length_app, length_skipn.
    change (skipn k y :: map (skipn k) r) with (map (skipn k) (y :: r)). lia.
Qed.

(** X10: [deindent] keeps the relative indentation of the indented lines:
    with [k] the number of code units it removes from every line, an
    indented line keeps its leading white space but for the first [k] code
    units, and when some line is indented, some indented line ends up with
    no leading white space.  The output is never longer than the input. *)
Theorem deindent_keeps_relative_indentation (s : jsstring) :
  exists k,
    split LF (deindent s) = map (skipn k) (split LF s)
    /\ (forall line,
           In line (split LF s) -> leading_whitespace line <> [] ->
           leading_whitespace (skipn k line) = skipn k (leading_whitespace line)
           /\ length (leading_whitespace (skipn k line)) + k
              = length (leading_whitespace line))
    /\ ((exists line, In line (split LF s) /\ leading_whitespace line <> []) ->
        exists line, In line (split LF s) /\ leading_whitespace line <> []
                     /\ leading_whitespace (skipn k line) = [])
    /\ length (deindent s) <= length s.
Proof.
  destruct (split_deindent s) as (k & Heq & Hk). exists k.
  split; [exact Heq|].
  assert (Hle : forall line, In line (split LF s) -> leading_whitespace line <> [] ->
                             k <= length (leading_whitespace line)).
  { destruct Hk as [[_ ->]|[_ Hmin]]; [intros; lia|exact Hmin]. }
  split; [|split].
  - intros line Hin Hne. specialize (Hle line Hin Hne).
    rewrite leading_whitespace_skipn by exact Hle.
    split; [reflexivity|]. rewrite length_skipn. lia.
  - intros (l0 & Hin0 & Hne0).
    destruct Hk as [[Hno _]|[(l & Hin & Hne & Hlen) _]].
    + rewrite Forall_forall in Hno. specialize (Hno l0 Hin0). contradiction.
    + exists l. split; [exact Hin|]. split; [exact Hne|].
      rewrite leading_whitespace_skipn by lia. apply skipn_all2. lia.
  - destruct (deindent_strip s) as (k' & Hd & _). rewrite Hd.
    rewrite <- (join_split LF s) at 2. apply join_skipn_length.
Qed.

(** * The element: storage, selection and focus *)

Lemma supported_css_safe (v : jsstring) :
  In v supported -> css_string_safe v = true.
Proof.
  unfold supported. cbn [map In].
  intros H. repeat (destruct H as [<-|H]; [reflexivity|]). destruct H.
Qed.

Lemma find_supported (v : jsstring) :
  In v supported -> find (jsstring_eqb v) supported = Some v.
Proof.
  unfold supported. cbn [map In].
  intros H. repeat (destruct H as [<-|H]; [reflexivity|]). destruct H.
Qed.

Lemma find_not_supported (v : jsstring) :
  ~ In v supported -> find (jsstring_eqb v) supported = None.
Proof.
  intros H. destruct (find (jsstring_eqb v) supported) as [w|] eqn:E; [|reflexivity].
  apply find_some in E. destruct E as [Hin Heq]. apply jsstring_eqb_eq in Heq.
  subst w. contradiction.
Qed.

Lemma select_assign_supported (v : jsstring) :
  In v supported -> select_assign v = v.
Proof.
  intros H. unfold select_assign.
  replace (existsb (jsstring_eqb v) supported) with true; [reflexivity|].
  symmetry. apply existsb_exists. exists v. split; [exact H|now apply jsstring_eqb_eq].
Qed.





(** X12: what [firstUpdated] does with what it finds in storage.  Without
    an item, with the empty string, and with a CSS-safe string that is no
    option's value, the element stays as it is and the select element shows
    its first option, [decode-base64]; with the value of an option the
    select element shows that option.  Nothing else of the element
    changes. *)
Theorem firstUpdated_restores_only_options
        (querySelector_other : jsstring -> completion (option jsstring))
        (storage : Storage) :
  let el := connected storage in
  select_value el = str "decode-base64"
  /\ match getItem storage lastFunctionIdentifier with
     | None => firstUpdated querySelector_other el = Normal el
     | Some v =>
         (v = [] -> firstUpdated querySelector_other el = Normal el)
         /\ (In v supported ->
             firstUpdated querySelector_other el = Normal (with_select_value el v))
         /\ (css_string_safe v = true -> ~ In v supported ->
             firstUpdated querySelector_other el = Normal el)
     end.
Proof.
  intros el. subst el. split; [reflexivity|].
  unfold firstUpdated, connected. cbn [_lastFunction].
  destruct (getItem storage lastFunctionIdentifier) as [v|]; [|reflexivity].
  split; [intros ->; reflexivity|]. split.
  - intros Hin. destruct v as [|c r].
    + exfalso. revert Hin. unfold supported. cbn [map In].
      intros H. repeat (destruct H as [H|H]; [discriminate|]). destruct H.
    + unfold querySelector_option.
      rewrite (supported_css_safe _ Hin), (find_supported _ Hin). cbn [bind].
      now rewrite (select_assign_supported _ Hin).
  - intros Hsafe Hnot. destruct v as [|c r]; [reflexivity|].
    unfold querySelector_option. rewrite Hsafe, (find_not_supported _ Hnot).
    reflexivity.
Qed.

(** X13: the focus is handed back once per pointer selection.  After a
    [pointerdown] of type [pointerType], [_selectChange] calls [focus] on
    the input exactly when the pointer is a mouse or a touch, or a flag was
    still pending; it leaves the flag cleared, so that a second
    [_selectChange] does not call [focus]. *)
Theorem focus_follows_pointer_selection (P : Platform) (pointerType : jsstring)
        (el : Element) (storage : Storage) :
  let first := _selectChange P (_selectPointerDown pointerType el) storage in
  let second := _selectChange P (element first) (storage_after first) in
  focus_called first
  = (jsstring_eqb pointerType (str "mouse") || jsstring_eqb pointerType (str "touch")
     || _focusAfterSelect el)
  /\ _focusAfterSelect (element first) = false
  /\ focus_called second = false
  /\ _focusAfterSelect (element second) = false.
Proof.
  intros first second.
  assert (H1 : forall e s, _focusAfterSelect (element (_selectChange P e s)) = false).
  { intros e s. unfold _selectChange, call_inputChange.
    destruct (_inputChange P (select_value e) (textarea_value e) (fields e));
      cbn [with_fields _focusAfterSelect];
      destruct (_focusAfterSelect e) eqn:E; cbn [element with_focusAfterSelect
                                                   _focusAfterSelect with_fields];
      try reflexivity; exact E. }
  assert (H2 : forall e s, focus_called (_selectChange P e s) = _focusAfterSelect e).
  { intros e s. unfold _selectChange, call_inputChange.
    destruct (_inputChange P (select_value e) (textarea_value e) (fields e));
      cbn [with_fields _focusAfterSelect];
      destruct (_focusAfterSelect e); reflexivity. }
  subst first second. rewrite !H2, !H1. repeat split.
  unfold _selectPointerDown.
  destruct (jsstring_eqb pointerType (str "mouse") || jsstring_eqb pointerType (str "touch"));
    reflexivity.
Qed.

(** * The reporter: every failure value *)

Section Outcome.

Variable P : Platform.

(** ** What [JSON.stringify] throws *)

Lemma serialize_props_throws (ser : value P -> completion (option (json P)))
      (props : list (property P)) (e : exn) :
  (forall v e', ser v = Throw e' -> e' = TypeError) ->
  serialize_props ser props = Throw e -> e = TypeError.
Proof.
  intros Hser. induction props as [|p r IH]; cbn [serialize_props]; [discriminate|].
  destruct (enumerable p); [|exact IH].
  destruct (ser (val p)) as [j|e'] eqn:E; cbn [bind].
  - destruct (serialize_props ser r) as [m|e']; cbn [bind]; [discriminate|].
    intros H. injection H as <-. now apply IH.
  - intros H. injection H as <-. exact (Hser _ _ E).
Qed.

Lemma serialize_elements_throws (ser : value P -> completion (option (json P)))
      (elements : list (value P)) (e : exn) :
  (forall v e', ser v = Throw e' -> e' = TypeError) ->
  serialize_elements ser elements = Throw e -> e = TypeError.
Proof.
  intros Hser. induction elements as [|x r IH]; cbn [serialize_elements]; [discriminate|].
  destruct (ser x) as [j|e'] eqn:E; cbn [bind].
  - destruct (serialize_elements ser r) as [m|e']; cbn [bind]; [discriminate|].
    intros H. injection H as <-. now apply IH.
  - intros H. injection H as <-. exact (Hser _ _ E).
Qed.

Lemma Serialize_throws_TypeError (fuel : nat) (h : heap P) :
  forall (stack : list addr) (v : value P) (e : exn),
    NoDup stack -> (forall a, In a stack -> a < length h) ->
    length h < fuel + length stack ->
    SerializeJSONProperty fuel h stack v = Throw e -> e = TypeError.
Proof.
  induction fuel as [|f IH]; intros stack v e Hnd Hlt Hfuel.
  - pose proof (stack_bound (length h) stack Hnd Hlt). simpl in Hfuel. lia.
  - destruct v; try (simpl; congruence).
    rewrite Serialize_object.
    destruct (existsb (Nat.eqb a) stack) eqn:Hmem; [congruence|].
    destruct (lookup h a) as [o|] eqn:Hlook; [|discriminate].
    assert (Hser : forall w e', SerializeJSONProperty f h (a :: stack) w = Throw e' ->
                                e' = TypeError).
    { intros w e'. apply IH.
      - constructor; [|exact Hnd]. intros Hin.
        assert (existsb (Nat.eqb a) stack = true); [|congruence].
        apply existsb_exists. exists a. split; [exact Hin|apply Nat.eqb_refl].
      - intros b [<-|Hb]; [now apply (lookup_lt P h a o)|now apply Hlt].
      - simpl. lia. }
    destruct o as [c props|elements].
    + destruct (serialize_props _ props) as [m|e'] eqn:E; cbn [bind]; [discriminate|].
      intros H. injection H as <-. exact (serialize_props_throws _ _ _ Hser E).
    + destruct (serialize_elements _ elements) as [m|e'] eqn:E; cbn [bind];
        [discriminate|].
      intros H. injection H as <-. exact (serialize_elements_throws _ _ _ Hser E).
Qed.

Lemma JSON_stringify_throws_TypeError (h : heap P) (v : value P) (e : exn) :
  JSON_stringify h v = Throw e -> e = TypeError.
Proof.
  unfold JSON_stringify.
  destruct (SerializeJSONProperty (S (length h)) h [] v) as [j|e'] eqn:E; cbn [bind];
    [discriminate|].
  intros H. injection H as <-.
  apply (Serialize_throws_TypeError (S (length h)) h [] v e' (NoDup_nil _));
    [intros a []|simpl; lia|exact E].
Qed.

(** ** A value that is no instance of [Error] *)

Lemma instanceof_alloc_report (h : heap P) (props : list (property P)) (v : value P) :
  instanceof h v ClassError = false ->
  instanceof (Ordinary ClassObject props :: h) v ClassError = false
  /\ instanceof (Ordinary ClassObject props :: h) v ClassDOMException = false.
Proof.
  intros H.
  assert (Hdom : instanceof (Ordinary ClassObject props :: h) v ClassError = false
                 -> instanceof (Ordinary ClassObject props :: h) v ClassDOMException
                    = false).
  { intros Hf.
    destruct (instanceof (Ordinary ClassObject props :: h) v ClassDOMException) eqn:E;
      [|reflexivity].
    apply DOMException_instanceof_Error in E. congruence. }
  assert (He : instanceof (Ordinary ClassObject props :: h) v ClassError = false).
  { destruct v; try reflexivity. cbn [instanceof lookup] in *.
    destruct (Nat.eqb_spec a (length h)); [reflexivity|exact H]. }
  split; [exact He|exact (Hdom He)].
Qed.

(** ** The outcome of a listener

    Either the serialization of the report throws, or the report has the
    members below; [jt], [jr] and [je] are the trees of the type tag, of the
    raw text and of the details, where they have one. *)

Ltac listener_outcome h v :=
  let jt := fresh "jt" in
  let jc := fresh "jc" in
  let js := fresh "js" in
  let jn := fresh "jn" in
  let text := fresh "text" in
  let e := fresh "e" in
  let Hd := fresh "Hd" in
  let Hp := fresh "Hp" in
  cbn [alloc];
  let Hraw := fresh "Hraw" in
  pose proof (try_stringify_primitive P h v) as Hraw;
  let ty := fresh "ty" in
  let raw := fresh "raw" in
  set (ty := typeTag h v) in *; set (raw := try_stringify h v) in *;
  let Hinst := fresh "Hinst" in
  destruct (instanceof h v ClassError) eqn:Hinst;
  [ rewrite (instanceof_alloc P h _ _ _ Hinst);
    unfold getErrorDetails;
    rewrite !(Get_alloc P h _ _ _ _ Hinst);
    let vc := fresh "vc" in
    let vs := fresh "vs" in
    let vn := fresh "vn" in
    set (vc := Get h v (str "cause")) in *;
    set (vs := Get h v (str "stack")) in *;
    set (vn := Get h v (str "name")) in *;
    cbn [alloc assign length]; rewrite update2_old;
    unfold data; cbn [set_property key enumerable val]; eval_names;
    match goal with
    | |- context [JSON_stringify (?x2 :: ?x1 :: h) _] =>
        let L1 := fresh "L1" in
        let L2 := fresh "L2" in
        let Hlen := fresh "Hlen" in
        let h3 := fresh "h3" in
        pose proof (lookup2_old P h x1 x2) as L1;
        pose proof (lookup2_new P h x1 x2) as L2;
        assert (Hlen : length (x2 :: x1 :: h) = S (S (length h))) by reflexivity;
        set (h3 := x2 :: x1 :: h) in *; clearbody h3;
        let E := fresh "E" in
        destruct (JSON_stringify h3 (VObject (length h))) as [text|e] eqn:E; cbn [bind];
        [ right; revert E; unfold JSON_stringify; rewrite Hlen;
          rewrite Serialize_object; cbn [existsb]; rewrite L1;
          cbn [serialize_props key enumerable val];
          rewrite ?Serialize_VString, ?Serialize_VNumber;
          rewrite (Serialize_primitive P _ _ _ raw Hraw);
          rewrite Serialize_object, not_on_stack, L2;
          cbn [serialize_props key enumerable val];
          let Ety := fresh "Ety" in
          let Ec := fresh "Ec" in
          let Es := fresh "Es" in
          let En := fresh "En" in
          match goal with
          | |- context [SerializeJSONProperty ?f ?hh ?st ty] =>
              destruct (SerializeJSONProperty f hh st ty) as [jt|?] eqn:Ety
          end; cbn [bind]; [|intros Hd; discriminate Hd];
          match goal with
          | |- context [SerializeJSONProperty ?f ?hh ?st vc] =>
              destruct (SerializeJSONProperty f hh st vc) as [jc|?] eqn:Ec
          end; cbn [bind]; [|intros Hd; discriminate Hd];
          match goal with
          | |- context [SerializeJSONProperty ?f ?hh ?st vs] =>
              destruct (SerializeJSONProperty f hh st vs) as [js|?] eqn:Es
          end; cbn [bind]; [|intros Hd; discriminate Hd];
          match goal with
          | |- context [SerializeJSONProperty ?f ?hh ?st vn] =>
              destruct (SerializeJSONProperty f hh st vn) as [jn|?] eqn:En
          end; cbn [bind option_map]; [|intros Hd; discriminate Hd];
          intros E; injection E as <-;
          exists jt, (primitive_json raw),
            (Some (JObject (optional_member "cause" jc ++ optional_member "stack" js
                            ++ optional_member "name" jn)));
          split; [destruct jt, (primitive_json raw), jc, js, jn; reflexivity|];
          split; [intros Hty; rewrite (Serialize_primitive P _ _ _ ty Hty) in Ety;
                  congruence|];
          split; [reflexivity|];
          split; [discriminate|];
          intros _; exists jc, js, jn; split; [reflexivity|];
          split; [intros Hp; rewrite (Serialize_primitive P _ _ _ vc Hp) in Ec;
                  congruence|];
          split; [intros Hp; rewrite (Serialize_primitive P _ _ _ vs Hp) in Es;
                  congruence|];
          intros Hp; rewrite (Serialize_primitive P _ _ _ vn Hp) in En; congruence
        | left;
          let HT := fresh "HT" in
          pose proof (JSON_stringify_throws_TypeError _ _ _ E) as HT; subst e;
          split; [reflexivity|];
          let Hty := fresh "Hty" in
          let Hc := fresh "Hc" in
          let Hs := fresh "Hs" in
          let Hn := fresh "Hn" in
          destruct (primitive ty) eqn:Hty; [right|left; reflexivity];
          split; [reflexivity|];
          destruct (primitive vc) eqn:Hc; [|left; reflexivity];
          destruct (primitive vs) eqn:Hs; [|right; left; reflexivity];
          destruct (primitive vn) eqn:Hn; [exfalso|right; right; reflexivity];
          revert E; unfold JSON_stringify; rewrite Hlen;
          rewrite Serialize_object; cbn [existsb]; rewrite L1;
          cbn [serialize_props key enumerable val];
          rewrite ?Serialize_VString, ?Serialize_VNumber;
          rewrite (Serialize_primitive P _ _ _ raw Hraw),
            (Serialize_primitive P _ _ _ ty Hty);
          rewrite Serialize_object, not_on_stack, L2;
          cbn [serialize_props key enumerable val];
          rewrite (Serialize_primitive P _ _ _ vc Hc),
            (Serialize_primitive P _ _ _ vs Hs), (Serialize_primitive P _ _ _ vn Hn);
          cbn [bind option_map]; intros Hd; discriminate Hd ]
    end
  | match goal with
    | |- context [instanceof (Ordinary ClassObject ?props :: h) _ ClassError] =>
        destruct (instanceof_alloc_report h props v Hinst) as [-> ->]
    end;
    cbn [assign]; rewrite update_alloc_new;
    unfold data; cbn [set_property key enumerable val]; eval_names;
    match goal with
    | |- context [JSON_stringify (?x1 :: h) _] =>
        let L1 := fresh "L1" in
        let Hlen := fresh "Hlen" in
        let h3 := fresh "h3" in
        pose proof (lookup_alloc_new P h x1) as L1;
        assert (Hlen : length (x1 :: h) = S (length h)) by reflexivity;
        set (h3 := x1 :: h) in *; clearbody h3;
        let E := fresh "E" in
        destruct (JSON_stringify h3 (VObject (length h))) as [text|e] eqn:E; cbn [bind];
        [ right; revert E; unfold JSON_stringify; rewrite Hlen;
          rewrite Serialize_object; cbn [existsb]; rewrite L1;
          cbn [serialize_props key enumerable val];
          rewrite ?Serialize_VString, ?Serialize_VNumber, Serialize_VUndefined;
          rewrite (Serialize_primitive P _ _ _ raw Hraw);
          let Ety := fresh "Ety" in
          match goal with
          | |- context [SerializeJSONProperty ?f ?hh ?st ty] =>
              destruct (SerializeJSONProperty f hh st ty) as [jt|?] eqn:Ety
          end; cbn [bind option_map]; [|intros Hd; discriminate Hd];
          intros E; injection E as <-;
          exists jt, (primitive_json raw), None;
          split; [destruct jt, (primitive_json raw); reflexivity|];
          split; [intros Hty; rewrite (Serialize_primitive P _ _ _ ty Hty) in Ety;
                  congruence|];
          split; [reflexivity|];
          split; [reflexivity|discriminate]
        | left;
          let HT := fresh "HT" in
          pose proof (JSON_stringify_throws_TypeError _ _ _ E) as HT; subst e;
          split; [reflexivity|left];
          let Hty := fresh "Hty" in
          destruct (primitive ty) eqn:Hty; [exfalso|reflexivity];
          revert E; unfold JSON_stringify; rewrite Hlen;
          rewrite Serialize_object; cbn [existsb]; rewrite L1;
          cbn [serialize_props key enumerable val];
          rewrite ?Serialize_VString, ?Serialize_VNumber, Serialize_VUndefined;
          rewrite (Serialize_primitive P _ _ _ raw Hraw),
            (Serialize_primitive P _ _ _ ty Hty);
          cbn [bind option_map]; intros Hd; discriminate Hd ]
    end ].

Lemma errorListener_outcome (h : heap P) (ev : ErrorEvent P) :
  (errorListener h ev = Throw TypeError
   /\ (primitive (typeTag h (error ev)) = false
       \/ (instanceof h (error ev) ClassError = true
           /\ (primitive (Get h (error ev) (str "cause")) = false
               \/ primitive (Get h (error ev) (str "stack")) = false
               \/ primitive (Get h (error ev) (str "name")) = false))))
  \/ exists jt jr je : option (json P),
      errorListener h ev
      = Normal [post "/api/report/error"
                     (Some (print (JObject (location_members ev
                                            ++ optional_member "type" jt
                                            ++ optional_member "rawError" jr
                                            ++ optional_member "error" je))))]
      /\ (primitive (typeTag h (error ev)) = true ->
          jt = primitive_json (typeTag h (error ev)))
      /\ jr = primitive_json (try_stringify h (error ev))
      /\ (instanceof h (error ev) ClassError = false -> je = None)
      /\ (instanceof h (error ev) ClassError = true ->
          exists jc js jn : option (json P),
            je = Some (JObject (optional_member "cause" jc ++ optional_member "stack" js
                                ++ optional_member "name" jn))
            /\ (primitive (Get h (error ev) (str "cause")) = true ->
                jc = primitive_json (Get h (error ev) (str "cause")))
            /\ (primitive (Get h (error ev) (str "stack")) = true ->
                js = primitive_json (Get h (error ev) (str "stack")))
            /\ (primitive (Get h (error ev) (str "name")) = true ->
                jn = primitive_json (Get h (error ev) (str "name")))).
Proof. unfold errorListener. listener_outcome h (error ev). Qed.

Lemma rejectionListener_outcome (h : heap P) (ev : PromiseRejectionEvent P) :
  (rejectionListener h ev = Throw TypeError
   /\ (primitive (typeTag h (reason ev)) = false
       \/ (instanceof h (reason ev) ClassError = true
           /\ (primitive (Get h (reason ev) (str "cause")) = false
               \/ primitive (Get h (reason ev) (str "stack")) = false
               \/ primitive (Get h (reason ev) (str "name")) = false))))
  \/ exists jt jr je : option (json P),
      rejectionListener h ev
      = Normal [post "/api/report/unhandled-rejection"
                     (Some (print (JObject (optional_member "type" jt
                                            ++ optional_member "rawReason" jr
                                            ++ optional_member "error" je))))]
      /\ (primitive (typeTag h (reason ev)) = true ->
          jt = primitive_json (typeTag h (reason ev)))
      /\ jr = primitive_json (try_stringify h (reason ev))
      /\ (instanceof h (reason ev) ClassError = false -> je = None)
      /\ (instanceof h (reason ev) ClassError = true ->
          exists jc js jn : option (json P),
            je = Some (JObject (optional_member "cause" jc ++ optional_member "stack" js
                                ++ optional_member "name" jn))
            /\ (primitive (Get h (reason ev) (str "cause")) = true ->
                jc = primitive_json (Get h (reason ev) (str "cause")))
            /\ (primitive (Get h (reason ev) (str "stack")) = true ->
                js = primitive_json (Get h (reason ev) (str "stack")))
            /\ (primitive (Get h (reason ev) (str "name")) = true ->
                jn = primitive_json (Get h (reason ev) (str "name")))).
Proof. unfold rejectionListener. listener_outcome h (reason ev). Qed.

End Outcome.

(** ** What the listeners report *)

Ltac names_within :=
  let x := fresh "x" in
  let Hx := fresh "Hx" in
  intros x Hx; cbn [In] in Hx |- *; tauto.

(** X14: a failure value that is no instance of [Error] and whose type tag
    is a primitive (any primitive value, [undefined], [null], a symbol and a
    BigInt included, and any object whose constructor has a string name) never
    makes a listener throw: each sends exactly one report, made of the event's
    four location members (error listener only), the type tag, and the raw
    text where [JSON.stringify] gave one; the report has no [error] member. *)
Theorem non_error_value_report (P : Platform) (h : heap P) (v : value P)
        (ev : ErrorEvent P) (rv : PromiseRejectionEvent P) :
  error ev = v ->
  reason rv = v ->
  instanceof h v ClassError = false ->
  primitive (typeTag h v) = true ->
  errorListener h ev
  = Normal [post "/api/report/error"
                 (Some (print (JObject (location_members ev
                                        ++ optional_member "type" (primitive_json (typeTag h v))
                                        ++ optional_member "rawError"
                                             (primitive_json (try_stringify h v))))))]
  /\ rejectionListener h rv
     = Normal [post "/api/report/unhandled-rejection"
                    (Some (print (JObject (optional_member "type" (primitive_json (typeTag h v))
                                           ++ optional_member "rawReason"
                                                (primitive_json (try_stringify h v))))))].
Proof.
  intros <- Hrv Hinst Hty. split.
  - destruct (errorListener_outcome P h ev)
      as [[_ [Hf|[Hf _]]]|(jt & jr & je & Heq & Ht & Hr & He & _)];
      [congruence|congruence|].
    rewrite Heq, (Ht Hty), Hr, (He Hinst). cbn [optional_member].
    rewrite !app_nil_r. reflexivity.
  - rewrite <- Hrv in Hinst, Hty |- *.
    destruct (rejectionListener_outcome P h rv)
      as [[_ [Hf|[Hf _]]]|(jt & jr & je & Heq & Ht & Hr & He & _)];
      [congruence|congruence|].
    rewrite Heq, (Ht Hty), Hr, (He Hinst). cbn [optional_member].
    rewrite !app_nil_r. reflexivity.
Qed.

(** A rejection with a BigInt: [JSON.stringify] throws on it, the exception
    is swallowed, and the report has the type tag only. *)
Lemma non_error_value_report_witness :
  instanceof (P:=integerPlatform) [] (VBigInt 7%Z) ClassError = false
  /\ primitive (typeTag (P:=integerPlatform) [] (VBigInt 7%Z)) = true
  /\ errorListener [] (error_event (VBigInt 7%Z))
     = Normal [post "/api/report/error"
                    (Some (print (JObject (location_members (error_event (VBigInt 7%Z))
                                           ++ [(str "type", JString (str "BigInt"))]))))]
  /\ rejectionListener [] (rejection_event (VBigInt 7%Z))
     = Normal [post "/api/report/unhandled-rejection"
                    (Some (print (P:=integerPlatform)
                                 (JObject [(str "type", JString (str "BigInt"))])))].
Proof.
  split; [reflexivity|]. split; [reflexivity|].
  exact (non_error_value_report integerPlatform [] (VBigInt 7%Z)
           (error_event (VBigInt 7%Z)) (rejection_event (VBigInt 7%Z))
           eq_refl eq_refl eq_refl eq_refl).
Defined.



(** X16: a report has an [error] member exactly when the failure value is
    an instance of [Error] (a DOMException included); the member is then an
    object with no member other than [cause], [stack] and [name], so the
    error's own [message] and a DOMException's [code] are never part of it. *)
Theorem error_member_iff_Error_instance (P : Platform) (h : heap P)
        (ev : ErrorEvent P) (rv : PromiseRejectionEvent P) :
  (errorListener h ev = Throw TypeError
   \/ exists doc : json P,
       errorListener h ev = Normal [post "/api/report/error" (Some (print doc))]
       /\ if instanceof h (error ev) ClassError
          then exists details : json P,
              member "error" doc = Some details
              /\ incl (member_names details) (map str ["cause"; "stack"; "name"]%string)
          else member "error" doc = None)
  /\ (rejectionListener h rv = Throw TypeError
      \/ exists doc : json P,
          rejectionListener h rv
          = Normal [post "/api/report/unhandled-rejection" (Some (print doc))]
          /\ if instanceof h (reason rv) ClassError
             then exists details : json P,
                 member "error" doc = Some details
                 /\ incl (member_names details) (map str ["cause"; "stack"; "name"]%string)
             else member "error" doc = None).
Proof.
  split.
  - destruct (errorListener_outcome P h ev)
      as [[Hthrow _]|(jt & jr & je & Heq & _ & _ & Hno & Hyes)]; [left; exact Hthrow|right].
    eexists. split; [exact Heq|].
    destruct (instanceof h (error ev) ClassError).
    + destruct (Hyes eq_refl) as (jc & js & jn & -> & _).
      eexists. split.
      * unfold member, location_members.
        destruct jt, jr; cbn [optional_member app find fst snd option_map]; eval_names;
          cbn [find fst snd option_map]; reflexivity.
      * destruct jc, js, jn; cbn [member_names optional_member app map fst]; names_within.
    + rewrite (Hno eq_refl). unfold member, location_members.
      destruct jt, jr; cbn [optional_member app find fst snd option_map]; eval_names;
        cbn [find fst snd option_map]; reflexivity.
  - destruct (rejectionListener_outcome P h rv)
      as [[Hthrow _]|(jt & jr & je & Heq & _ & _ & Hno & Hyes)]; [left; exact Hthrow|right].
    eexists. split; [exact Heq|].
    destruct (instanceof h (reason rv) ClassError).
    + destruct (Hyes eq_refl) as (jc & js & jn & -> & _).
      eexists. split.
      * unfold member.
        destruct jt, jr; cbn [optional_member app find fst snd option_map]; eval_names;
          cbn [find fst snd option_map]; reflexivity.
      * destruct jc, js, jn; cbn [member_names optional_member app map fst]; names_within.
    + rewrite (Hno eq_refl). unfold member.
      destruct jt, jr; cbn [optional_member app find fst snd option_map]; eval_names;
        cbn [find fst snd option_map]; reflexivity.
Qed.

(** X17: the report of an instance of [Error] (a DOMException included)
    whose type tag, [cause], [stack] and [name] are primitives other than a
    BigInt.  Neither listener throws: each sends exactly one report, made of
    the event's four location members (error listener only), the type tag,
    the raw text where [JSON.stringify] gave one, and an [error] member with
    the [cause], the [stack] and the [name] that have a JSON text, in this
    order. *)
Theorem error_instance_report (P : Platform) (h : heap P) (v : value P)
        (ev : ErrorEvent P) (rv : PromiseRejectionEvent P) :
  error ev = v ->
  reason rv = v ->
  instanceof h v ClassError = true ->
  primitive (typeTag h v) = true ->
  primitive (Get h v (str "cause")) = true ->
  primitive (Get h v (str "stack")) = true ->
  primitive (Get h v (str "name")) = true ->
  let details :=
    JObject (optional_member "cause" (primitive_json (Get h v (str "cause")))
             ++ optional_member "stack" (primitive_json (Get h v (str "stack")))
             ++ optional_member "name" (primitive_json (Get h v (str "name")))) in
  errorListener h ev
  = Normal [post "/api/report/error"
                 (Some (print (JObject (location_members ev
                                        ++ optional_member "type" (primitive_json (typeTag h v))
                                        ++ optional_member "rawError"
                                             (primitive_json (try_stringify h v))
                                        ++ [(str "error", details)]))))]
  /\ rejectionListener h rv
     = Normal [post "/api/report/unhandled-rejection"
                    (Some (print (JObject (optional_member "type" (primitive_json (typeTag h v))
                                           ++ optional_member "rawReason"
                                                (primitive_json (try_stringify h v))
                                           ++ [(str "error", details)]))))].
Proof.
  intros <- Hrv Hinst Hty Hc Hs Hn details. subst details. split.
  - destruct (errorListener_outcome P h ev)
      as [[_ [Hf|[_ [Hf|[Hf|Hf]]]]]|(jt & jr & je & Heq & Ht & Hr & _ & He)];
      try congruence.
    destruct (He Hinst) as (jc & js & jn & -> & Hc' & Hs' & Hn').
    rewrite Heq, (Ht Hty), Hr, (Hc' Hc), (Hs' Hs), (Hn' Hn). reflexivity.
  - rewrite <- Hrv in *.
    destruct (rejectionListener_outcome P h rv)
      as [[_ [Hf|[_ [Hf|[Hf|Hf]]]]]|(jt & jr & je & Heq & Ht & Hr & _ & He)];
      try congruence.
    destruct (He Hinst) as (jc & js & jn & -> & Hc' & Hs' & Hn').
    rewrite Heq, (Ht Hty), Hr, (Hc' Hc), (Hs' Hs), (Hn' Hn). reflexivity.
Qed.

(** The DOMException of [abort_heap]: it has no [cause], and its [name] is
    its own. *)
Lemma error_instance_report_witness :
  instanceof abort_heap (VObject 0) ClassError = true
  /\ primitive (typeTag abort_heap (VObject 0)) = true
  /\ primitive (Get abort_heap (VObject 0) (str "cause")) = true
  /\ primitive (Get abort_heap (VObject 0) (str "stack")) = true
  /\ primitive (Get abort_heap (VObject 0) (str "name")) = true
  /\ errorListener abort_heap (error_event (VObject 0))
     = Normal [post "/api/report/error"
                    (Some (print (JObject
                       (location_members (error_event (VObject 0))
                        ++ [(str "type", JString (str "DOMException"));
                            (str "rawError", JString (str "{}"));
                            (str "error",
                             JObject [(str "stack",
                                       JString (str "Error: The operation was aborted."));
                                      (str "name", JString (str "AbortError"))])]))))]
  /\ rejectionListener abort_heap (rejection_event (VObject 0))
     = Normal [post "/api/report/unhandled-rejection"
                    (Some (print (P:=integerPlatform) (JObject
                       [(str "type", JString (str "DOMException"));
                        (str "rawReason", JString (str "{}"));
                        (str "error",
                         JObject [(str "stack",
                                   JString (str "Error: The operation was aborted."));
                                  (str "name", JString (str "AbortError"))])])))].
Proof.
  do 5 (split; [reflexivity|]).
  exact (error_instance_report integerPlatform abort_heap (VObject 0)
           (error_event (VObject 0)) (rejection_event (VObject 0))
           eq_refl eq_refl eq_refl eq_refl eq_refl eq_refl eq_refl).
Defined.

(** X18: the report of an error made by [new C(message, { cause })], with
    [C] being [Error], a native error or a user class that extends [Error],
    and the cause absent or a primitive that is no BigInt.  Both listeners
    send one report; its [type] is the name of the constructor, its raw text
    is that of the empty object (an error has no enumerable property), and its
    [error] member holds the cause (when it has a JSON text), the stack, and
    the [name] of the prototype: the standard name of a native error, and
    [Error] for a user class that does not set it.  The error's [message] is
    not part of the report of a rejection. *)
Theorem constructed_error_report (P : Platform) (h : heap P) (a : addr) (c : class)
        (msg stack : jsstring) (cause : option (value P))
        (ev : ErrorEvent P) (rv : PromiseRejectionEvent P) :
  lookup h a = Some (new_Error c msg stack cause) ->
  c = ClassError \/ (exists n, c = ClassNativeError n) \/ (exists n, c = ClassUserError n) ->
  (forall w, cause = Some w -> primitive w = true) ->
  error ev = VObject a ->
  reason rv = VObject a ->
  let details :=
    JObject (optional_member "cause" (match cause with
                                      | Some w => primitive_json w
                                      | None => None
                                      end)
             ++ [(str "stack", JString stack);
                 (str "name", JString (match c with
                                       | ClassNativeError n => n
                                       | _ => str "Error"
                                       end))]) in
  errorListener h ev
  = Normal [post "/api/report/error"
                 (Some (print (JObject (location_members ev
                                        ++ [(str "type", JString (constructor_name c));
                                            (str "rawError", JString (str "{}"));
                                            (str "error", details)]))))]
  /\ rejectionListener h rv
     = Normal [post "/api/report/unhandled-rejection"
                    (Some (print (JObject [(str "type", JString (constructor_name c));
                                           (str "rawReason", JString (str "{}"));
                                           (str "error", details)])))].
Proof.
  intros Hlook Hc Hcause Hev Hrv details. unfold new_Error in Hlook.
  assert (Hinst : instanceof h (VObject a) ClassError = true).
  { unfold instanceof. rewrite Hlook. cbn [class_of].
    destruct Hc as [->|[[n ->]|[n ->]]]; reflexivity. }
  assert (Hty : typeTag h (VObject a) = VString (constructor_name c)).
  { unfold typeTag. rewrite Hlook. destruct cause; reflexivity. }
  assert (Hgc : Get h (VObject a) (str "cause")
                = match cause with Some w => w | None => VUndefined end).
  { unfold Get. rewrite Hlook. destruct cause; reflexivity. }
  assert (Hgs : Get h (VObject a) (str "stack") = VString stack).
  { unfold Get. rewrite Hlook. destruct cause; reflexivity. }
  assert (Hgn : Get h (VObject a) (str "name")
                = VString (match c with ClassNativeError n => n | _ => str "Error" end)).
  { unfold Get. rewrite Hlook.
    destruct cause, Hc as [->|[[n ->]|[n ->]]]; reflexivity. }
  assert (Hraw : try_stringify h (VObject a) = VString (str "{}")).
  { unfold try_stringify, JSON_stringify. rewrite Serialize_object. cbn [existsb].
    rewrite Hlook. destruct cause; reflexivity. }
  assert (Hpc : primitive (Get h (VObject a) (str "cause")) = true).
  { rewrite Hgc. destruct cause as [w|]; [exact (Hcause w eq_refl)|reflexivity]. }
  assert (Hjc : primitive_json (Get h (VObject a) (str "cause"))
                = match cause with Some w => primitive_json w | None => None end).
  { rewrite Hgc. destruct cause; reflexivity. }
  split.
  - rewrite <- Hev in *.
    destruct (errorListener_outcome P h ev)
      as [[_ [Hf|[_ [Hf|[Hf|Hf]]]]]|(jt & jr & je & Heq & Ht & Hr & _ & He)];
      try (rewrite ?Hty, ?Hgs, ?Hgn in Hf; cbn [primitive] in Hf; congruence).
    destruct (He Hinst) as (jc & js & jn & -> & Hc' & Hs' & Hn').
    rewrite Heq, Ht, Hr, Hc', Hs', Hn', Hty, Hraw, Hgs, Hgn, Hjc;
      try first [assumption | rewrite Hty; reflexivity | rewrite Hgs; reflexivity
                | rewrite Hgn; reflexivity].
    reflexivity.
  - rewrite <- Hrv in *.
    destruct (rejectionListener_outcome P h rv)
      as [[_ [Hf|[_ [Hf|[Hf|Hf]]]]]|(jt & jr & je & Heq & Ht & Hr & _ & He)];
      try (rewrite ?Hty, ?Hgs, ?Hgn in Hf; cbn [primitive] in Hf; congruence).
    destruct (He Hinst) as (jc & js & jn & -> & Hc' & Hs' & Hn').
    rewrite Heq, Ht, Hr, Hc', Hs', Hn', Hty, Hraw, Hgs, Hgn, Hjc;
      try first [assumption | rewrite Hty; reflexivity | rewrite Hgs; reflexivity
                | rewrite Hgn; reflexivity].
    reflexivity.
Qed.

Lemma constructed_error_report_witness :
  lookup http_error_heap 0
  = Some (new_Error (ClassUserError (str "HttpError")) (str "not found")
                    (str "Error: not found") (Some (VString (str "offline"))))
  /\ errorListener http_error_heap (error_event (VObject 0))
     = Normal [post "/api/report/error"
                    (Some (print (JObject
                       (location_members (error_event (VObject 0))
                        ++ [(str "type", JString (str "HttpError"));
                            (str "rawError", JString (str "{}"));
                            (str "error",
                             JObject [(str "cause", JString (str "offline"));
                                      (str "stack", JString (str "Error: not found"));
                                      (str "name", JString (str "Error"))])]))))]
  /\ rejectionListener http_error_heap (rejection_event (VObject 0))
     = Normal [post "/api/report/unhandled-rejection"
                    (Some (print (P:=integerPlatform) (JObject
                       [(str "type", JString (str "HttpError"));
                        (str "rawReason", JString (str "{}"));
                        (str "error",
                         JObject [(str "cause", JString (str "offline"));
                                  (str "stack", JString (str "Error: not found"));
                                  (str "name", JString (str "Error"))])])))].
Proof.
  split; [reflexivity|].
  apply (constructed_error_report integerPlatform http_error_heap 0
           (ClassUserError (str "HttpError")) (str "not found") (str "Error: not found")
           (Some (VString (str "offline")))
           (error_event (VObject 0)) (rejection_event (VObject 0))).
  - reflexivity.
  - right. right. exists (str "HttpError"). reflexivity.
  - intros w Hw. injection Hw as <-. reflexivity.
  - reflexivity.
  - reflexivity.
Defined.

(** * The handler around its [await] *)

Lemma atob_percent : atob (str "%%%") = Throw InvalidCharacterError.
Proof. vm_compute. reflexivity. Qed.

(** X19: a digest that arrives late.  A hash dispatch resets the error flag
    and suspends at the [await].  When nothing runs before the digest is
    there, the element ends as [_inputChange] says.  When another dispatch
    runs in between, the assignment after the [await] writes the digest of
    the first dispatch over the output of the second and keeps the second's
    error flag: after a [decode-base64] of [%%%], which is no base64 text,
    the element has the error flag set and the digest as its output. *)
Theorem stale_digest_overwrites_later_result (P : Platform)
        (algorithm functionInput : jsstring) (this : ToolsApp) :
  In algorithm [str "SHA-1"; str "SHA-256"; str "SHA-512"] ->
  let hex := hashHex P functionInput algorithm in
  exists suspended,
    _inputChange_start P algorithm functionInput this = Normal (Awaiting suspended hex)
    /\ _inputError suspended = false
    /\ _outputValue suspended = _outputValue this
    /\ _inputChange P algorithm functionInput this
       = Normal (_inputChange_resume hex suspended)
    /\ (forall laterName laterInput later,
           _inputChange P laterName laterInput suspended = Normal later ->
           _inputChange_resume hex later
           = {| _outputValue := hex; _inputError := _inputError later |})
    /\ exists later,
        _inputChange P (str "decode-base64") (str "%%%") suspended = Normal later
        /\ _inputChange_resume hex later = {| _outputValue := hex; _inputError := true |}.
Proof.
  intros Hin hex. subst hex. exists (set_inputError this false).
  assert (Hstart : _inputChange_start P algorithm functionInput this
                   = Normal (Awaiting (set_inputError this false)
                                      (hashHex P functionInput algorithm))).
  { cbn [In] in Hin. destruct Hin as [<-|[<-|[<-|[]]]];
      unfold _inputChange_start; eval_names; reflexivity. }
  assert (Halone : _inputChange P algorithm functionInput this
                   = Normal (_inputChange_resume (hashHex P functionInput algorithm)
                                                 (set_inputError this false))).
  { cbn [In] in Hin. destruct Hin as [<-|[<-|[<-|[]]]];
      unfold _inputChange, _inputChange_resume; eval_names; reflexivity. }
  split; [exact Hstart|]. split; [reflexivity|]. split; [reflexivity|].
  split; [exact Halone|]. split.
  - intros laterName laterInput later _. reflexivity.
  - eexists. split.
    + unfold _inputChange. eval_names. rewrite atob_percent. reflexivity.
    + reflexivity.
Qed.

(** The digest of the stand-in platform is the text itself: [abc] gives
    [616263]. *)
Lemma stale_digest_overwrites_later_result_witness :
  In (str "SHA-256") [str "SHA-1"; str "SHA-256"; str "SHA-512"]
  /\ hashHex integerPlatform (str "abc") (str "SHA-256") = str "616263"
  /\ exists suspended,
      _inputChange_start integerPlatform (str "SHA-256") (str "abc")
                         {| _outputValue := str "old"; _inputError := true |}
      = Normal (Awaiting suspended (hashHex integerPlatform (str "abc") (str "SHA-256")))
      /\ exists later,
          _inputChange integerPlatform (str "decode-base64") (str "%%%") suspended
          = Normal later
          /\ _inputChange_resume (hashHex integerPlatform (str "abc") (str "SHA-256")) later
             = {| _outputValue := hashHex integerPlatform (str "abc") (str "SHA-256");
                  _inputError := true |}.
Proof.
  assert (H : In (str "SHA-256") [str "SHA-1"; str "SHA-256"; str "SHA-512"])
    by (right; left; reflexivity).
  split; [exact H|]. split; [reflexivity|].
  destruct (stale_digest_overwrites_later_result
              integerPlatform (str "SHA-256") (str "abc")
              {| _outputValue := str "old"; _inputError := true |} H)
    as (suspended & Hstart & _ & _ & _ & _ & Hlater).
  exists suspended. split; [exact Hstart|exact Hlater].
Defined.
